(** * French form-line and linkage extraction: a shallow embedding

    The development follows
      - src/wiktextract/extractor/fr/linkage.py     (linkage sections),
      - src/wiktextract/extractor/fr/form_line.py   (form line, model records),
      - wiktextract/extractor/fr/form_line.py       (the older, dict based
        form line, module [Old] below).

    Python strings are sequences of Unicode code points, objects that the
    extractors share are kept in a store, and an exception leaves the
    mutations made so far in place. *)

From Stdlib Require Import ZArith NArith Ascii.
From Stdlib Require Import String List.
From stdpp Require Import gmap list.

Local Open Scope N_scope.
#[local] Set Warnings "-register-all".

(** ** Python strings *)

(** A [str] is its list of code points. *)
Definition pystr : Type := list N.

(** ASCII literals of the source, written as Rocq strings. *)
Definition lit (s : String.string) : pystr :=
  map N_of_ascii (String.list_ascii_of_string s).

Arguments lit s%_string_scope.

Definition str_eqb (s t : pystr) : bool := bool_decide (s = t).

(** [x in (a, b, ...)] for a tuple or set of strings. *)
Definition str_in (s : pystr) (l : list pystr) : bool :=
  existsb (str_eqb s) l.

Fixpoint startswith (s p : pystr) : bool :=
  match p, s with
  | [], _ => true
  | _ :: _, [] => false
  | c :: p', d :: s' => if N.eqb c d then startswith s' p' else false
  end.

Definition endswith (s p : pystr) : bool := startswith (rev s) (rev p).

(** [s.startswith((p1, p2, ...))] *)
Definition startswith_any (s : pystr) (ps : list pystr) : bool :=
  existsb (startswith s) ps.

Definition removeprefix (s p : pystr) : pystr :=
  if startswith s p then drop (length p) s else s.

Definition removesuffix (s p : pystr) : pystr :=
  if endswith s p then take (length s - length p)%nat s else s.

Fixpoint lstrip_by (f : N -> bool) (s : pystr) : pystr :=
  match s with
  | [] => []
  | c :: s' => if f c then lstrip_by f s' else s
  end.

Definition rstrip_by (f : N -> bool) (s : pystr) : pystr :=
  rev (lstrip_by f (rev s)).

Definition strip_by (f : N -> bool) (s : pystr) : pystr :=
  rstrip_by f (lstrip_by f s).

Definition code_in (l : list N) (c : N) : bool := existsb (N.eqb c) l.

(** Code points for which [str.isspace] holds (Unicode 14); the same class
    is [\s] of the [re] module on [str] patterns. *)
Definition whitespace_table : list N :=
  [9; 10; 11; 12; 13; 28; 29; 30; 31; 32;
   133; 160; 5760; 8192; 8193; 8194; 8195; 8196; 8197; 8198;
   8199; 8200; 8201; 8202; 8232; 8233; 8239; 8287; 12288].

Definition isspace (c : N) : bool := code_in whitespace_table c.

(** The code point of digit zero of every decimal script (general category
    Nd, Unicode 14); the nine code points after it are its digits 1 to 9. *)
Definition decimal_zeros : list N :=
  [48; 1632; 1776; 1984; 2406; 2534; 2662; 2790; 2918; 3046;
   3174; 3302; 3430; 3558; 3664; 3792; 3872; 4160; 4240; 6112;
   6160; 6470; 6608; 6784; 6800; 6992; 7088; 7232; 7248; 42528;
   43216; 43264; 43472; 43504; 43600; 44016; 65296; 66720; 68912; 69734;
   69872; 69942; 70096; 70384; 70736; 70864; 71248; 71360; 71472; 71904;
   72016; 72784; 73040; 73120; 92768; 92864; 93008; 120782; 120792; 120802;
   120812; 120822; 123200; 123632; 125264; 130032].

(** Code points with Numeric_Type=Digit that are not decimal: superscripts,
    subscripts, circled digits and the like. *)
Definition digit_only_table : list N :=
  [178; 179; 185; 4969; 4970; 4971; 4972; 4973; 4974; 4975;
   4976; 4977; 6618; 8304; 8308; 8309; 8310; 8311; 8312; 8313;
   8320; 8321; 8322; 8323; 8324; 8325; 8326; 8327; 8328; 8329;
   9312; 9313; 9314; 9315; 9316; 9317; 9318; 9319; 9320; 9332;
   9333; 9334; 9335; 9336; 9337; 9338; 9339; 9340; 9352; 9353;
   9354; 9355; 9356; 9357; 9358; 9359; 9360; 9450; 9461; 9462;
   9463; 9464; 9465; 9466; 9467; 9468; 9469; 9471; 10102; 10103;
   10104; 10105; 10106; 10107; 10108; 10109; 10110; 10112; 10113; 10114;
   10115; 10116; 10117; 10118; 10119; 10120; 10122; 10123; 10124; 10125;
   10126; 10127; 10128; 10129; 10130; 68160; 68161; 68162; 68163; 69216;
   69217; 69218; 69219; 69220; 69221; 69222; 69223; 69224; 69714; 69715;
   69716; 69717; 69718; 69719; 69720; 69721; 69722; 127232; 127233; 127234;
   127235; 127236; 127237; 127238; 127239; 127240; 127241; 127242].

(** The decimal value of a code point of category Nd. *)
Definition decimal_value (c : N) : option N :=
  match find (fun z => andb (N.leb z c) (N.ltb c (z + 10))) decimal_zeros with
  | Some z => Some (c - z)
  | None => None
  end.

Definition isdecimal_char (c : N) : bool :=
  match decimal_value c with Some _ => true | None => false end.

Definition isdigit_char (c : N) : bool :=
  orb (isdecimal_char c) (code_in digit_only_table c).

(** [str.isdigit]: non-empty and every character is a digit. *)
Definition isdigit (s : pystr) : bool :=
  match s with
  | [] => false
  | _ => forallb isdigit_char s
  end.

(** [int(s)] on the strings that reach it in the source, which hold no
    sign, blank or underscore: the value when [s] is a non-empty run of
    decimal digits no longer than the interpreter lets a number be,
    [None] for the [ValueError] otherwise. *)
Fixpoint int_digits (acc : Z) (s : pystr) : option Z :=
  match s with
  | [] => Some acc
  | c :: s' =>
      match decimal_value c with
      | Some d => int_digits (10 * acc + Z.of_N d)%Z s'
      | None => None
      end
  end.

(** [sys.get_int_max_str_digits()] as CPython sets it when it starts: a
    string of more digits, zeros in front included, is refused by [int]. *)
Definition int_max_str_digits : N := 4300.

Definition py_int (s : pystr) : option Z :=
  match s with
  | [] => None
  | _ =>
      if (int_max_str_digits <? N.of_nat (length s))%N then None
      else int_digits 0%Z s
  end.

(** [s.split("/", 1)[-1]]: what follows the first slash, or all of [s]. *)
Fixpoint after_first (sep : N) (s : pystr) : option pystr :=
  match s with
  | [] => None
  | c :: s' => if N.eqb c sep then Some s' else after_first sep s'
  end.

Definition split1_last (sep : N) (s : pystr) : pystr :=
  match after_first sep s with
  | Some r => r
  | None => s
  end.

(** Code points of the literals. *)
Definition LPAREN : N := 40.
Definition RPAREN : N := 41.
Definition COMMA : N := 44.
Definition SLASH : N := 47.
Definition SEMICOLON : N := 59.
Definition NEWLINE : N := 10.
Definition SPACE : N := 32.
Definition E_ACUTE : N := 233.
Definition E_GRAVE : N := 232.
Definition EM_DASH : N := 8212.

(** [s.strip()], [s.strip("()")] and [s.strip("() ")]. *)
Definition strip (s : pystr) : pystr := strip_by isspace s.
Definition strip_parens (s : pystr) : pystr :=
  strip_by (code_in [LPAREN; RPAREN]) s.
Definition strip_parens_space (s : pystr) : pystr :=
  strip_by (code_in [LPAREN; RPAREN; SPACE]) s.

(** *** The index pattern of [process_linkage_list]

    With blanks between its parts the pattern reads
    [\s* \( (?: sens \s* )? ( \d+ ) \) $].

    Every step of the pattern is decided by one character (white space,
    parenthesis and digit classes do not overlap, and [s] is not a digit),
    so the backtracking matcher never has a choice to revise.  [$] matches
    at the end of the string and before a line feed that ends it. *)

Fixpoint span_by (f : N -> bool) (s : pystr) : pystr * pystr :=
  match s with
  | [] => ([], [])
  | c :: s' =>
      if f c then let '(a, b) := span_by f s' in (c :: a, b) else ([], s)
  end.

(** The pattern from the opening parenthesis on, at the start of [s]:
    the digits of group 1 and what follows the match. *)
Definition index_match_paren (s : pystr) : option (pystr * pystr) :=
  match s with
  | c :: s1 =>
      if N.eqb c LPAREN then
        let s2 :=
          if startswith s1 (lit "sens")
          then lstrip_by isspace (drop 4 s1) else s1 in
        let '(ds, s3) := span_by isdecimal_char s2 in
        match ds, s3 with
        | _ :: _, [d] =>
            if N.eqb d RPAREN then Some (ds, []) else None
        | _ :: _, [d; e] =>
            if andb (N.eqb d RPAREN) (N.eqb e NEWLINE)
            then Some (ds, [NEWLINE]) else None
        | _, _ => None
        end
      else None
  | [] => None
  end.

(** A match that starts at the beginning of [s]. *)
Definition index_match_here (s : pystr) : option (pystr * pystr) :=
  index_match_paren (lstrip_by isspace s).

(** [re.search(index_pattern, s)]: the leftmost match, as the text before
    it, group 1 and the text after it. *)
Fixpoint index_search (s : pystr) : option (pystr * pystr * pystr) :=
  match index_match_here s with
  | Some (ds, rest) => Some ([], ds, rest)
  | None =>
      match s with
      | [] => None
      | c :: s' =>
          match index_search s' with
          | Some (pre, ds, rest) => Some (c :: pre, ds, rest)
          | None => None
          end
      end
  end.

(** [re.sub(index_pattern, "", s)]: the pattern ends at [$] and needs a
    parenthesis, so it matches at most once. *)
Definition index_sub (s : pystr) : pystr :=
  match index_search s with
  | Some (pre, _, rest) => pre ++ rest
  | None => s
  end.

(** ** The parse tree of wikitextprocessor *)

(** The node kinds the extractors test for; [OTHER] stands for the rest. *)
Inductive NodeKind : Type :=
  ROOT | LIST | LIST_ITEM | TEMPLATE | LINK | ITALIC | HTML | OTHER.

Global Instance NodeKind_eq_dec : EqDecision NodeKind.
Proof. solve_decision. Defined.

(** [kind in (K1 | K2)] *)
Definition kind_in (k : NodeKind) (ks : list NodeKind) : bool :=
  existsb (fun k' => bool_decide (k = k')) ks.

(** Keys of [template_parameters]: positional ([int]) or named ([str]). *)
Inductive pkey : Type :=
| KInt (i : Z)
| KStr (s : pystr).

Global Instance pkey_eq_dec : EqDecision pkey.
Proof. solve_decision. Defined.

(** A [WikiNode] with the attributes the extractors read.  A [TemplateNode]
    is the node of kind [TEMPLATE] and an [HTMLNode] the node of kind [HTML];
    [template_name] and [tag] are meaningful on those.  [GeneralNode] is
    what a child, a link argument or a template argument can be: a [str], a
    node, or a list of these.  [template_parameters] is a dict, read only
    by key, kept as its list of items. *)
Inductive WikiNode : Type :=
| Node (kind : NodeKind) (sarg : pystr) (template_name : pystr) (tag : pystr)
       (largs : list (list GeneralNode))
       (template_parameters : list (pkey * GeneralNode))
       (children : list GeneralNode)
with GeneralNode : Type :=
| GStr (s : pystr)
| GNode (n : WikiNode)
| GList (l : list GeneralNode).

Definition kind (n : WikiNode) : NodeKind :=
  match n with Node k _ _ _ _ _ _ => k end.
Definition sarg (n : WikiNode) : pystr :=
  match n with Node _ s _ _ _ _ _ => s end.
Definition template_name (n : WikiNode) : pystr :=
  match n with Node _ _ t _ _ _ _ => t end.
Definition tag (n : WikiNode) : pystr :=
  match n with Node _ _ _ t _ _ _ => t end.
Definition largs (n : WikiNode) : list (list GeneralNode) :=
  match n with Node _ _ _ _ l _ _ => l end.
Definition template_parameters (n : WikiNode) : list (pkey * GeneralNode) :=
  match n with Node _ _ _ _ _ p _ => p end.
Definition children (n : WikiNode) : list GeneralNode :=
  match n with Node _ _ _ _ _ _ c => c end.

(** [d.get(k)] and [k in d] *)
Fixpoint dict_get (k : pkey) (d : list (pkey * GeneralNode))
  : option GeneralNode :=
  match d with
  | [] => None
  | (k', v) :: d' => if bool_decide (k = k') then Some v else dict_get k d'
  end.

Definition dict_has (k : pkey) (d : list (pkey * GeneralNode)) : bool :=
  match dict_get k d with Some _ => true | None => false end.

(** [node.find_child(kinds)]: the direct children that are nodes of one of
    the kinds, in order. *)
Fixpoint find_child_list (ks : list NodeKind) (l : list GeneralNode)
  : list WikiNode :=
  match l with
  | [] => []
  | GNode c :: l' =>
      if kind_in (kind c) ks then c :: find_child_list ks l'
      else find_child_list ks l'
  | _ :: l' => find_child_list ks l'
  end.

Definition find_child (ks : list NodeKind) (n : WikiNode) : list WikiNode :=
  find_child_list ks (children n).

(** [node.find_child(kinds, with_index=True)]: the same with the position
    of each child among all the children. *)
Fixpoint find_child_index_list (ks : list NodeKind) (i : nat)
    (l : list GeneralNode) : list (nat * WikiNode) :=
  match l with
  | [] => []
  | GNode c :: l' =>
      if kind_in (kind c) ks
      then (i, c) :: find_child_index_list ks (S i) l'
      else find_child_index_list ks (S i) l'
  | _ :: l' => find_child_index_list ks (S i) l'
  end.

(** [node.find_html(name, with_index=True)]: the [HTML] children with that
    tag, each with its position among the children. *)
Definition find_html_index (name : pystr) (n : WikiNode)
  : list (nat * WikiNode) :=
  List.filter (fun p => str_eqb (tag (snd p)) name)
    (find_child_index_list [HTML] 0 (children n)).

(** [node.find_child_recursively(kinds)]: the matching nodes below [node]
    in document order; the search goes on below a node that matches. *)
Fixpoint find_child_recursively (ks : list NodeKind) (n : WikiNode)
  : list WikiNode :=
  match n with
  | Node _ _ _ _ _ _ cs =>
      (fix go (l : list GeneralNode) : list WikiNode :=
         match l with
         | [] => []
         | GNode c :: l' =>
             (if kind_in (kind c) ks then [c] else [])
               ++ find_child_recursively ks c ++ go l'
         | _ :: l' => go l'
         end) cs
  end.

(** [node.invert_find_child(kinds)]: the direct children that are not
    nodes of one of the kinds. *)
Definition invert_find_child (ks : list NodeKind) (n : WikiNode)
  : list GeneralNode :=
  List.filter (fun c => match c with
                        | GNode m => negb (kind_in (kind m) ks)
                        | _ => true
                        end) (children n).

(** ** The records of [models.py] *)

(** [Form(form=..., tags=..., source=...)]; absent fields take the defaults
    [""] and [[]]. *)
Record Form : Type := mkForm {
  form : pystr;
  form_tags : list pystr;
  source : pystr
}.

Record Sound : Type := mkSound {
  ipa : pystr;
  zh_pron : pystr;
  sound_tags : list pystr
}.

(** [word] is [None] until the field is assigned, which is what
    ["word" in linkage_data.model_fields_set] tests.  [linkage_lang_code]
    holds whatever [template_parameters.get(1)] gave. *)
Record Linkage : Type := mkLinkage {
  word : option pystr;
  linkage_tags : list pystr;
  roman : pystr;
  alt : pystr;
  translation : pystr;
  sense : pystr;
  sense_index : Z;
  linkage_lang : pystr;
  linkage_lang_code : option GeneralNode
}.

(** [Linkage()] *)
Definition new_linkage : Linkage :=
  mkLinkage None [] [] [] [] [] 0%Z [] (Some (GStr [])).

Definition word_set (l : Linkage) : bool :=
  match word l with Some _ => true | None => false end.

Definition with_word (w : pystr) (l : Linkage) : Linkage :=
  mkLinkage (Some w) (linkage_tags l) (roman l) (alt l) (translation l)
            (sense l) (sense_index l) (linkage_lang l) (linkage_lang_code l).
Definition with_linkage_tags (t : list pystr) (l : Linkage) : Linkage :=
  mkLinkage (word l) t (roman l) (alt l) (translation l)
            (sense l) (sense_index l) (linkage_lang l) (linkage_lang_code l).
Definition with_roman (r : pystr) (l : Linkage) : Linkage :=
  mkLinkage (word l) (linkage_tags l) r (alt l) (translation l)
            (sense l) (sense_index l) (linkage_lang l) (linkage_lang_code l).
Definition with_alt (a : pystr) (l : Linkage) : Linkage :=
  mkLinkage (word l) (linkage_tags l) (roman l) a (translation l)
            (sense l) (sense_index l) (linkage_lang l) (linkage_lang_code l).
Definition with_translation (t : pystr) (l : Linkage) : Linkage :=
  mkLinkage (word l) (linkage_tags l) (roman l) (alt l) t
            (sense l) (sense_index l) (linkage_lang l) (linkage_lang_code l).
Definition with_sense (s : pystr) (l : Linkage) : Linkage :=
  mkLinkage (word l) (linkage_tags l) (roman l) (alt l) (translation l)
            s (sense_index l) (linkage_lang l) (linkage_lang_code l).
Definition with_sense_index (i : Z) (l : Linkage) : Linkage :=
  mkLinkage (word l) (linkage_tags l) (roman l) (alt l) (translation l)
            (sense l) i (linkage_lang l) (linkage_lang_code l).

(** The linkage lists of an entry, named by the values of
    [LINKAGE_SUBTITLES]. *)
Inductive LinkageField : Type := Derived | Related | Synonyms.

Global Instance LinkageField_eq_dec : EqDecision LinkageField.
Proof. solve_decision. Defined.

(** A list of forms is an object of the store: [forms] is a reference to
    it, since [process_conj_template] assigns one entry's list to another
    entry, which holds that list or a copy of it from then on
    ([assign_forms]).  No other list attribute is ever assigned, only
    appended to in place, so an entry holds those itself. *)
Definition loc : Type := nat.

Record WordEntry : Type := mkWordEntry {
  lang_code : pystr;
  pos : pystr;
  forms : loc;
  sounds : list Sound;
  tags : list pystr;
  derived : list Linkage;
  related : list Linkage;
  synonyms : list Linkage
}.

Definition with_forms (l : loc) (e : WordEntry) : WordEntry :=
  mkWordEntry (lang_code e) (pos e) l (sounds e) (tags e)
              (derived e) (related e) (synonyms e).
Definition with_sounds (s : list Sound) (e : WordEntry) : WordEntry :=
  mkWordEntry (lang_code e) (pos e) (forms e) s (tags e)
              (derived e) (related e) (synonyms e).
Definition with_tags (t : list pystr) (e : WordEntry) : WordEntry :=
  mkWordEntry (lang_code e) (pos e) (forms e) (sounds e) t
              (derived e) (related e) (synonyms e).

(** [getattr(entry, linkage_type)] and appending to the list it returns *)
Definition linkage_of (f : LinkageField) (e : WordEntry) : list Linkage :=
  match f with
  | Derived => derived e
  | Related => related e
  | Synonyms => synonyms e
  end.

Definition linkage_append (f : LinkageField) (x : Linkage) (e : WordEntry)
  : WordEntry :=
  match f with
  | Derived =>
      mkWordEntry (lang_code e) (pos e) (forms e) (sounds e) (tags e)
                  (derived e ++ [x]) (related e) (synonyms e)
  | Related =>
      mkWordEntry (lang_code e) (pos e) (forms e) (sounds e) (tags e)
                  (derived e) (related e ++ [x]) (synonyms e)
  | Synonyms =>
      mkWordEntry (lang_code e) (pos e) (forms e) (sounds e) (tags e)
                  (derived e) (related e) (synonyms e ++ [x])
  end.

(** ** The state of a page traversal *)

(** [page_data], the store of form lists, and the titles for which
    [extract_conjugation] has been called so far. *)
Record State : Type := mkState {
  page_data : list WordEntry;
  heap : gmap loc (list Form);
  conjugation_calls : list pystr
}.

(** The list a reference denotes. *)
Definition deref (h : gmap loc (list Form)) (l : loc) : list Form :=
  default [] (h !! l).

Inductive exn : Type :=
  IndexError | KeyError | TypeError | AttributeError | ValueError.

Inductive outcome (A : Type) : Type :=
| Ok (a : A)
| Raise (e : exn).
Arguments Ok {A} a.
Arguments Raise {A} e.

(** A computation returns or raises, and leaves a state either way. *)
Definition M (A : Type) : Type := State -> outcome A * State.

Definition ret {A} (a : A) : M A := fun s => (Ok a, s).
Definition raise {A} (e : exn) : M A := fun s => (Raise e, s).
Definition bind {A B} (m : M A) (k : A -> M B) : M B :=
  fun s =>
    match m s with
    | (Ok a, s') => k a s'
    | (Raise e, s') => (Raise e, s')
    end.

Notation "x <- m ;; k" := (bind m (fun x => k))
  (at level 100, m at next level, k at level 200, right associativity).
Notation "m ;; k" := (bind m (fun _ => k))
  (at level 100, k at level 200, right associativity).

(** [for x in xs: body] without loop variables, and with them. *)
Fixpoint for_each {X} (body : X -> M unit) (xs : list X) : M unit :=
  match xs with
  | [] => ret tt
  | x :: xs' => body x ;; for_each body xs'
  end.

Fixpoint for_fold {X V} (body : V -> X -> M V) (xs : list X) (v : V) : M V :=
  match xs with
  | [] => ret v
  | x :: xs' => v' <- body v x ;; for_fold body xs' v'
  end.

(** [enumerate(xs)] *)
Definition enumerate {X} (xs : list X) : list (nat * X) :=
  imap (fun i x => (i, x)) xs.

Fixpoint map_last {X} (f : X -> X) (l : list X) : list X :=
  match l with
  | [] => []
  | [x] => [f x]
  | x :: l' => x :: map_last f l'
  end.

(** [l[-2]] and [l[-1]] of a list of two elements or more *)
Fixpoint last_two {X} (l : list X) : option (X * X) :=
  match l with
  | [] | [_] => None
  | [x; y] => Some (x, y)
  | _ :: l' => last_two l'
  end.

(** [page_data[-1]] *)
Definition last_entry : M WordEntry :=
  fun s =>
    match last (page_data s) with
    | Some e => (Ok e, s)
    | None => (Raise IndexError, s)
    end.

(** A mutation of the object [page_data[-1]]. *)
Definition modify_last (f : WordEntry -> WordEntry) : M unit :=
  _ <- last_entry ;;
  fun s => (Ok tt, mkState (map_last f (page_data s)) (heap s)
                           (conjugation_calls s)).

(** [page_data[-1].forms], read as a value. *)
Definition last_forms : M (list Form) :=
  e <- last_entry ;;
  fun s => (Ok (deref (heap s) (forms e)), s).

(** [page_data[-1].forms.append(x)], or [extend]: the list object itself
    grows. *)
Definition extend_forms (xs : list Form) : M unit :=
  e <- last_entry ;;
  fun s => (Ok tt, mkState (page_data s)
                           (<[forms e := deref (heap s) (forms e) ++ xs]>
                              (heap s))
                           (conjugation_calls s)).

Definition append_form (x : Form) : M unit := extend_forms [x].

(** [page_data[-1].forms = page_data[-2].forms], with [l] the list of the
    entry before the last.  Without validation the last entry holds the
    list [l] itself from then on.  With validation ([copy]) it holds a new
    list with the items of [l]; the new list takes the place of the list
    the entry held, which is the same thing as long as no other entry
    holds that list. *)
Definition assign_forms (copy : bool) (l : loc) : M unit :=
  if copy then
    e <- last_entry ;;
    fun s => (Ok tt, mkState (page_data s)
                             (<[forms e := deref (heap s) l]> (heap s))
                             (conjugation_calls s))
  else modify_last (with_forms l).

Definition append_sound (x : Sound) : M unit :=
  modify_last (fun e => with_sounds (sounds e ++ [x]) e).

Definition append_tag (t : pystr) : M unit :=
  modify_last (fun e => with_tags (tags e ++ [t]) e).

(** [page_data[-1].sounds[-1].tags.append(t)] *)
Definition append_last_sound_tag (t : pystr) : M unit :=
  e <- last_entry ;;
  match last (sounds e) with
  | None => raise IndexError
  | Some _ =>
      modify_last (fun e =>
        with_sounds
          (map_last (fun x => mkSound (ipa x) (zh_pron x) (sound_tags x ++ [t]))
                    (sounds e)) e)
  end.

(** [getattr(page_data[-1], linkage_type).append(x)], where [linkage_type]
    is [None] when the section title is not a key of [LINKAGE_SUBTITLES]. *)
Definition append_linkage (linkage_type : option LinkageField) (x : Linkage)
  : M unit :=
  _ <- last_entry ;;
  match linkage_type with
  | None => raise TypeError
  | Some f => modify_last (linkage_append f x)
  end.

(** ** What the sources call and the repository view does not hold

    The context [wxr] with the parser, the expander and the configuration
    behind it, and the helpers of the sibling modules [page], [share],
    [pronunciation] and [conjugation].  They are taken as they come; each
    returns a value for every argument.

    - [clean_node wxr v] is the text of [clean_node(wxr, _, v)], with [None]
      for the Python [None].  The second argument of the Python function
      only receives categories and does not change the text.
    - [parse_expand_all wxr n] is
      [wxr.wtp.parse(wxr.wtp.node_to_wikitext(n), expand_all=True)] and
      [parse_pre_expand wxr n] the same call with [pre_expand=True] and
      [additional_expand={n.template_name}].
    - [extract_conjugation wxr e fs title] is the list of forms that
      [extract_conjugation(wxr, e, title)] appends to the forms [fs] of the
      entry [e].
    - [lower] is [str.lower].
    - [validate_assignment wxr] is the setting of that name in the
      configuration of the models of [models.py]: with it, the value
      assigned to a field is validated, and a list comes out of the
      validation as a new list that holds the same items; without it the
      field holds the very object that was assigned. *)
Record WiktextractContext : Type := mkContext {
  clean_node : option GeneralNode -> pystr;
  parse_expand_all : WikiNode -> WikiNode;
  parse_pre_expand : WikiNode -> WikiNode;
  process_pron_template : WikiNode -> pystr;
  PRON_TEMPLATES : list pystr;
  extract_conjugation : WordEntry -> list Form -> pystr -> list Form;
  split_tag_text : pystr -> list pystr;
  LINKAGE_SUBTITLES : pystr -> option LinkageField;
  lower : pystr -> pystr;
  validate_assignment : bool
}.

Definition is_template (n : WikiNode) : bool := bool_decide (kind n = TEMPLATE).

Definition nonempty (s : pystr) : bool :=
  match s with [] => false | _ => true end.

(** ** form_line.py *)

Section FormLine.
Context (wxr : WiktextractContext).

(** [process_equiv_pour_template]: the loop carries [form_tag]. *)
Definition equiv_pour_source : pystr :=
  lit "form line template '" ++ [E_ACUTE] ++ lit "quiv-pour'".

Definition equiv_pour_child (form_tag : pystr) (child : WikiNode) : M pystr :=
  if bool_decide (kind child = ITALIC) then
    ret (strip_parens_space (clean_node wxr (Some (GNode child))))
  else if andb (bool_decide (kind child = HTML))
               (str_eqb (tag child) (lit "bdi")) then
    let form_data :=
      mkForm (clean_node wxr (Some (GNode child)))
             (if nonempty form_tag then [form_tag] else [])
             equiv_pour_source in
    (if nonempty (form form_data) then append_form form_data else ret tt) ;;
    ret form_tag
  else ret form_tag.

Definition process_equiv_pour_template (node : WikiNode) : M unit :=
  let expanded_node := parse_expand_all wxr node in
  for_fold equiv_pour_child (find_child [ITALIC; HTML] expanded_node) [] ;;
  ret tt.

Definition zh_mot_child (template_node : WikiNode) : M unit :=
  if str_eqb (lower wxr (template_name template_node)) (lit "lang") then
    append_sound
      (mkSound [] (clean_node wxr (Some (GNode template_node))) [lit "Pinyin"])
  else if str_in (template_name template_node)
                 [lit "pron"; lit "prononciation"] then
    append_sound (mkSound (clean_node wxr (Some (GNode template_node))) [] [])
  else ret tt.

Definition process_zh_mot_template (node : WikiNode) : M unit :=
  let node := parse_pre_expand wxr node in
  for_each zh_mot_child (find_child [TEMPLATE] node).

(** The loop of [process_ja_mot_template]; it ends at the [break]. *)
Fixpoint ja_mot_loop (existing_forms : list pystr)
    (spans : list (nat * WikiNode)) : M unit :=
  match spans with
  | [] => ret tt
  | (index, node) :: rest =>
      if Nat.eqb index 1 then
        let form_text := clean_node wxr (Some (GNode node)) in
        if negb (str_in form_text existing_forms) then
          append_form (mkForm form_text [lit "romanization"] [])
        else ret tt
      else ja_mot_loop existing_forms rest
  end.

Definition process_ja_mot_template (template_node : WikiNode) : M unit :=
  let expanded_node := parse_expand_all wxr template_node in
  fs <- last_forms ;;
  let existing_forms := map form fs in
  ja_mot_loop existing_forms (find_html_index (lit "span") expanded_node).

Definition group_names : list pystr :=
  [lit "Premier groupe";
   lit "Deuxi" ++ [E_GRAVE] ++ lit "me groupe";
   lit "Troisi" ++ [E_GRAVE] ++ lit "me groupe"].

(** The test that lets an entry take over the forms of the entry before. *)
Definition same_conjugation (conj_title : pystr) (s : State) : option loc :=
  match last_two (page_data s) with
  | Some (prev, cur) =>
      if andb (str_eqb (lang_code prev) (lang_code cur))
           (andb (str_eqb (pos prev) (pos cur))
              (match last (deref (heap s) (forms prev)) with
               | Some f => str_eqb (source f) conj_title
               | None => false
               end))
      then Some (forms prev) else None
  | None => None
  end.

(** [extract_conjugation(wxr, page_data[-1], conj_title)] *)
Definition call_extract_conjugation (conj_title : pystr) : M unit :=
  e <- last_entry ;;
  fs <- last_forms ;;
  extend_forms (extract_conjugation wxr e fs conj_title) ;;
  fun s => (Ok tt, mkState (page_data s) (heap s)
                           (conjugation_calls s ++ [conj_title])).

(** The body of the loop over the links of the expanded template. *)
Definition conj_link (link : WikiNode) : M unit :=
  match largs link with
  | [] => ret tt
  | larg0 :: _ =>
      match larg0 with
      | [] => raise IndexError
      | GStr conj_title :: _ =>
          if negb (startswith conj_title (lit "Conjugaison:")) then ret tt
          else
            let conj_word := split1_last SLASH conj_title in
            if str_in conj_word group_names then ret tt
            else
              fun s =>
                match same_conjugation conj_title s with
                | Some l => assign_forms (validate_assignment wxr) l s
                | None => call_extract_conjugation conj_title s
                end
      | _ :: _ => raise AttributeError
      end
  end.

Definition process_conj_template (template_node : WikiNode) : M unit :=
  let expanded_node := parse_expand_all wxr template_node in
  for_each conj_link (find_child [LINK] expanded_node) ;;
  _ <- last_entry ;;
  let tag := clean_node wxr (Some (GNode expanded_node)) in
  let tag :=
    if str_in (template_name template_node) [lit "conj"; lit "conjugaison"]
    then strip (removesuffix tag (lit "(voir la conjugaison)"))
    else if startswith (template_name template_node) (lit "ja-")
    then strip (removesuffix (removesuffix tag (lit "(conjugaison)"))
                             (lit "(flexions)"))
    else tag in
  if nonempty tag then append_tag tag else ret tt.

Definition is_conj_name (name : pystr) : bool :=
  orb (str_in name [lit "conj"; lit "conjugaison"])
      (startswith_any name [lit "ja-adj-"; lit "ja-verbe"]).

(** The last branch of the dispatch: any other template is a tag. *)
Definition form_line_tag (pre_template_name : pystr) (node : WikiNode)
  : M unit :=
  e <- last_entry ;;
  let tag := clean_node wxr (Some (GNode node)) in
  if andb (startswith tag [LPAREN])
       (andb (endswith tag [RPAREN])
          (andb (str_in pre_template_name (PRON_TEMPLATES wxr))
                (match sounds e with [] => false | _ => true end)))
  then append_last_sound_tag (strip_parens tag)
  else if nonempty (strip_parens tag) then append_tag (strip_parens tag)
  else ret tt.

(** The body of the loop of [extract_form_line]; it carries
    [pre_template_name]. *)
Definition form_line_node (pre_template_name : pystr) (node : GeneralNode)
  : M pystr :=
  match node with
  | GNode node =>
      if is_template node then
        (if str_in (template_name node) (PRON_TEMPLATES wxr) then
           let ipa_text := process_pron_template wxr node in
           if nonempty ipa_text then append_sound (mkSound ipa_text [] [])
           else ret tt
         else if str_eqb (template_name node)
                         ([E_ACUTE] ++ lit "quiv-pour") then
           process_equiv_pour_template node
         else if startswith (template_name node) (lit "zh-mot") then
           process_zh_mot_template node
         else if str_eqb (template_name node) (lit "ja-mot") then
           process_ja_mot_template node
         else if is_conj_name (template_name node) then
           process_conj_template node
         else form_line_tag pre_template_name node) ;;
        ret (template_name node)
      else if bool_decide (kind node = ITALIC) then
        let tag := clean_node wxr (Some (GNode node)) in
        (if negb (str_eqb tag (lit "ou")) then append_tag tag else ret tt) ;;
        ret pre_template_name
      else ret pre_template_name
  | _ => ret pre_template_name
  end.

Definition extract_form_line (nodes : list GeneralNode) : M unit :=
  for_fold form_line_node nodes [] ;; ret tt.

End FormLine.

(** ** linkage.py *)

Section LinkageExtraction.
Context (wxr : WiktextractContext).

Definition process_lien_template (node : WikiNode) (linkage_data : Linkage)
  : Linkage :=
  let params := template_parameters node in
  let word :=
    clean_node wxr
      (match dict_get (KStr (lit "dif")) params with
       | Some v => Some v
       | None => dict_get (KInt 1) params
       end) in
  let linkage_data := with_word word linkage_data in
  let linkage_data :=
    if dict_has (KStr (lit "tr")) params
    then with_roman (clean_node wxr (dict_get (KStr (lit "tr")) params))
                    linkage_data
    else linkage_data in
  if dict_has (KStr (lit "sens")) params
  then with_translation (clean_node wxr (dict_get (KStr (lit "sens")) params))
                        linkage_data
  else linkage_data.

Definition process_zh_lien_template (node : WikiNode) (linkage_data : Linkage)
  : Linkage :=
  let params := template_parameters node in
  let linkage_data :=
    with_word (clean_node wxr (dict_get (KInt 1) params)) linkage_data in
  let linkage_data :=
    with_roman (clean_node wxr (dict_get (KInt 2) params)) linkage_data in
  let traditional_form :=
    clean_node wxr (Some (default (GStr []) (dict_get (KInt 3) params))) in
  if nonempty traditional_form then with_alt traditional_form linkage_data
  else linkage_data.

Definition process_linkage_template (node : WikiNode) (linkage_data : Linkage)
  : Linkage :=
  if str_eqb (template_name node) (lit "lien") then
    process_lien_template node linkage_data
  else if startswith (template_name node) (lit "zh-lien") then
    process_zh_lien_template node linkage_data
  else linkage_data.

(** The inner loop of [process_derives_autres_list]; it carries
    [lang_code] and [lang_name]. *)
Definition derives_autres_node (v : option GeneralNode * pystr)
    (node : WikiNode) : M (option GeneralNode * pystr) :=
  let '(lang_code, lang_name) := v in
  if andb (is_template node) (str_eqb (template_name node) (lit "L")) then
    ret (dict_get (KInt 1) (template_parameters node),
         clean_node wxr (Some (GNode node)))
  else if orb (bool_decide (kind node = LINK))
              (andb (is_template node)
                    (str_eqb (template_name node) (lit "lien"))) then
    let word := clean_node wxr (Some (GNode node)) in
    modify_last
      (linkage_append Derived
         (mkLinkage (Some word) [] [] [] [] [] 0%Z lang_name lang_code)) ;;
    ret v
  else ret v.

Definition derives_autres_item (list_item : WikiNode) : M unit :=
  for_fold derives_autres_node (find_child [TEMPLATE; LINK] list_item)
           (Some (GStr []), []) ;;
  ret tt.

Definition process_derives_autres_list (level_node : WikiNode) : M unit :=
  for_each derives_autres_item (find_child_recursively [LIST_ITEM] level_node).

(** [for tag in split_tag_text(tag_text): ...] *)
Definition dash_prefix : pystr := [EM_DASH; SPACE].

Definition apply_tag (linkage_data : Linkage) (tag : pystr) : Linkage :=
  if startswith tag dash_prefix then
    with_translation (removeprefix tag dash_prefix) linkage_data
  else if nonempty tag then
    with_linkage_tags (linkage_tags linkage_data ++ [tag]) linkage_data
  else linkage_data.

Definition apply_tag_text (tag_text : pystr) (linkage_data : Linkage)
  : Linkage :=
  fold_left apply_tag (split_tag_text wxr tag_text) linkage_data.

(** The three tests on [tag_text.strip()]. *)
Definition opens_paren (tag_text : pystr) : bool :=
  andb (startswith (strip tag_text) [LPAREN])
       (negb (endswith (strip tag_text) [RPAREN])).

Definition closes_paren (tag_text : pystr) : bool :=
  andb (negb (startswith (strip tag_text) [LPAREN]))
       (endswith (strip tag_text) [RPAREN]).

Definition is_separator (tag_text : pystr) : bool :=
  str_in (strip tag_text) [[COMMA]; [SLASH]].

(** The body of the loop over the children of a list item; it carries
    [linkage_data] and [pending_tag]. *)
Definition linkage_child (linkage_type : option LinkageField)
    (v : Linkage * pystr) (ic : nat * GeneralNode) : M (Linkage * pystr) :=
  let '(linkage_data, pending_tag) := v in
  let '(index, child_node) := ic in
  if orb (Nat.eqb index 0) (negb (word_set linkage_data)) then
    match child_node with
    | GNode n =>
        if is_template n
        then ret (process_linkage_template n linkage_data, pending_tag)
        else ret (with_word (clean_node wxr (Some child_node)) linkage_data,
                  pending_tag)
    | _ => ret (with_word (clean_node wxr (Some child_node)) linkage_data,
                pending_tag)
    end
  else
    tag_text <-
      match child_node with
      | GStr s => ret s
      | _ => _ <- last_entry ;; ret (clean_node wxr (Some child_node))
      end ;;
    if opens_paren tag_text then ret (linkage_data, tag_text)
    else if closes_paren tag_text then
      ret (apply_tag_text (pending_tag ++ tag_text) linkage_data, [])
    else if is_separator tag_text then
      append_linkage linkage_type linkage_data ;;
      ret (new_linkage, pending_tag)
    else if nonempty pending_tag then
      ret (linkage_data, pending_tag ++ tag_text)
    else ret (apply_tag_text tag_text linkage_data, pending_tag).

(** [Linkage()] with [sense] and [sense_index] from the loop variables. *)
Definition start_linkage (sense_text : pystr) (sense_index : Z) : Linkage :=
  let linkage_data := new_linkage in
  let linkage_data :=
    if nonempty sense_text then with_sense sense_text linkage_data
    else linkage_data in
  if negb (Z.eqb sense_index 0) then with_sense_index sense_index linkage_data
  else linkage_data.

(** The body of the loop of [process_linkage_list]; it carries
    [sense_text] and [sense_index]. *)
Definition linkage_node (linkage_type : option LinkageField)
    (v : pystr * Z) (template_or_list_node : WikiNode) : M (pystr * Z) :=
  let '(sense_text, sense_index) := v in
  if andb (is_template template_or_list_node)
          (str_eqb (template_name template_or_list_node) [LPAREN]) then
    let params := template_parameters template_or_list_node in
    let sense_text :=
      clean_node wxr (Some (default (GStr []) (dict_get (KInt 1) params))) in
    match default (GStr (lit "0")) (dict_get (KInt 2) params) with
    | GStr sense_index_text =>
        if isdigit sense_index_text then
          match py_int sense_index_text with
          | Some i => ret (sense_text, i)
          | None => raise ValueError
          end
        else ret (sense_text, sense_index)
    | _ => ret (sense_text, sense_index)
    end
  else if andb (bool_decide (kind template_or_list_node = LIST_ITEM))
               (str_eqb (sarg template_or_list_node) [SEMICOLON]) then
    let sense_text :=
      clean_node wxr (Some (GList (children template_or_list_node))) in
    match index_search sense_text with
    | Some (_, group1, _) =>
        match py_int group1 with
        | Some i => ret (index_sub sense_text, i)
        | None => raise ValueError
        end
    | None => ret (sense_text, sense_index)
    end
  else
    r <- for_fold (linkage_child linkage_type)
           (enumerate (invert_find_child [LIST] template_or_list_node))
           (start_linkage sense_text sense_index, []) ;;
    (if word_set (fst r) then append_linkage linkage_type (fst r)
     else ret tt) ;;
    ret v.

Definition process_linkage_list (level_node : WikiNode)
    (linkage_type : option LinkageField) : M unit :=
  for_fold (linkage_node linkage_type)
    (find_child_recursively [LIST_ITEM; TEMPLATE] level_node) ([], 0%Z) ;;
  ret tt.

Definition derives_autres_langues : pystr :=
  lit "d" ++ [E_ACUTE] ++ lit "riv" ++ [E_ACUTE] ++ lit "s autres langues".

Definition extract_linkage (level_node : WikiNode) (section_type : pystr)
  : M unit :=
  if str_eqb section_type derives_autres_langues then
    process_derives_autres_list level_node
  else
    process_linkage_list level_node (LINKAGE_SUBTITLES wxr section_type).

End LinkageExtraction.

(** ** The older form line: wiktextract/extractor/fr/form_line.py *)

Module Old.

(** The dict appended to ["forms"]: [{"form": form, "tags": [...]}]. *)
Record FormItem : Type := mkFormItem {
  item_form : GeneralNode;
  item_tags : list pystr
}.

(** An entry is a dict from field names to lists. *)
Abbreviation Entry := (gmap pystr (list FormItem)).

Section WithStr.
(** [str(v)] of a template argument that is a node or a list. *)
Context (str_of : GeneralNode -> pystr).

(** What an f-string makes of [template_parameters.get(1)]. *)
Definition format (v : option GeneralNode) : pystr :=
  match v with
  | None => lit "None"
  | Some (GStr s) => s
  | Some v => str_of v
  end.

(** [page_data[-1]["forms"].append(x)] *)
Definition append_form (x : FormItem) (page_data : list Entry)
  : outcome unit * list Entry :=
  match last page_data with
  | None => (Raise IndexError, page_data)
  | Some e =>
      match e !! lit "forms" with
      | None => (Raise KeyError, page_data)
      | Some fs =>
          (Ok tt, map_last (fun e => <[lit "forms" := fs ++ [x]]> e) page_data)
      end
  end.

(** [for template_arg_index in range(2, 8): ...] *)
Fixpoint equiv_pour_args (form_type : option GeneralNode)
    (params : list (pkey * GeneralNode)) (indexes : list nat)
    (page_data : list Entry) : outcome unit * list Entry :=
  match indexes with
  | [] => (Ok tt, page_data)
  | template_arg_index :: rest =>
      match dict_get (KInt (Z.of_nat template_arg_index)) params with
      | Some form =>
          match append_form
                  (mkFormItem form [lit "pour " ++ format form_type])
                  page_data with
          | (Ok _, page_data') =>
              equiv_pour_args form_type params rest page_data'
          | r => r
          end
      | None => equiv_pour_args form_type params rest page_data
      end
  end.

Definition process_equiv_pour_template (node : WikiNode)
    (page_data : list Entry) : outcome unit * list Entry :=
  let form_type := dict_get (KInt 1) (template_parameters node) in
  equiv_pour_args form_type (template_parameters node) (seq 2 6) page_data.

(** The dicts made from the parameters at [indexes] that are present. *)
Definition forms_of (params : list (pkey * GeneralNode))
    (form_type : option GeneralNode) (indexes : list nat) : list FormItem :=
  omap (fun i =>
          match dict_get (KInt (Z.of_nat i)) params with
          | Some form =>
              Some (mkFormItem form [lit "pour " ++ format form_type])
          | None => None
          end) indexes.

(** The forms one template contributes: one for each of the parameters 2
    to 7 that is present. *)
Definition equiv_pour_forms (node : WikiNode) : list FormItem :=
  forms_of (template_parameters node)
           (dict_get (KInt 1) (template_parameters node)) (seq 2 6).

End WithStr.
End Old.

(** ** Vocabulary of the properties *)

(** Every run of [m] relates the state it starts from to the state it
    leaves, whether it returns or raises. *)
Definition preserves (R : State -> State -> Prop) {A} (m : M A) : Prop :=
  forall s, R s (snd (m s)).

(** The last entry of [s] is still there in [s'], with every linkage list
    grown at its end by records that satisfy [P]. *)
Definition appends (P : Linkage -> Prop) (s s' : State) : Prop :=
  forall e, last (page_data s) = Some e ->
    exists e', last (page_data s') = Some e'
      /\ forall f, exists new,
           linkage_of f e' = linkage_of f e ++ new /\ Forall P new.

(** The nodes [extract_linkage] walks through, in the order of its loop,
    and the same extraction run on a given list of them. *)
Definition linkage_items (level_node : WikiNode) (section_type : pystr)
  : list WikiNode :=
  if str_eqb section_type derives_autres_langues
  then find_child_recursively [LIST_ITEM] level_node
  else find_child_recursively [LIST_ITEM; TEMPLATE] level_node.

Definition extract_linkage_items (wxr : WiktextractContext)
    (section_type : pystr) (items : list WikiNode) : M unit :=
  if str_eqb section_type derives_autres_langues
  then for_each (derives_autres_item wxr) items
  else
    for_fold (linkage_node wxr (LINKAGE_SUBTITLES wxr section_type))
             items ([], 0%Z) ;;
    ret tt.

(** The test of [process_conj_template] in words: the entry before the
    last is of the same language and part of speech, has forms, and the
    last of them comes from the conjugation page [conj_title]. *)
Definition reusable_forms (conj_title : pystr) (s : State)
    (prev cur : WordEntry) : Prop :=
  lang_code prev = lang_code cur
  /\ pos prev = pos cur
  /\ exists f, last (deref (heap s) (forms prev)) = Some f
               /\ source f = conj_title.

(** ** A small context for the examples

    [clean_node] gives a string as it is, a template the text of the table
    below and any other node the strings among its children; templates
    expand as the second table says. *)

Definition leaves (l : list GeneralNode) : pystr :=
  flat_map (fun c => match c with GStr s => s | _ => [] end) l.

Definition FRANCAIS : pystr := lit "fran" ++ [231] ++ lit "ais".
Definition CONJ_AIMER : pystr := lit "Conjugaison:" ++ FRANCAIS ++ lit "/aimer".
Definition EQUIV_POUR : pystr := [E_ACUTE] ++ lit "quiv-pour".

Definition sample_text (name : pystr) : pystr :=
  if str_eqb name (lit "conj") then lit "(voir la conjugaison)"
  else if str_eqb name (lit "ja-verbe") then lit "(conjugaison)"
  else if str_eqb name (lit "CA") then lit "(Canada)"
  else [].

Definition sample_clean_node (v : option GeneralNode) : pystr :=
  match v with
  | None => []
  | Some (GStr s) => s
  | Some (GList l) => leaves l
  | Some (GNode n) =>
      if is_template n then sample_text (template_name n)
      else leaves (children n)
  end.

Definition text_node (k : NodeKind) (tag : pystr) (text : pystr) : WikiNode :=
  Node k [] [] tag [] [] [GStr text].

Definition link_node (target : pystr) : WikiNode :=
  Node LINK [] [] [] [[GStr target]] [] [].

Definition root_node (cs : list GeneralNode) : WikiNode :=
  Node ROOT [] [] [] [] [] cs.

Definition template_node (name : pystr) (params : list (pkey * GeneralNode))
  : WikiNode :=
  Node TEMPLATE [] name [] [] params [].

Definition sample_expand (n : WikiNode) : WikiNode :=
  let name := template_name n in
  if str_eqb name (lit "conj") then
    root_node [GNode (link_node CONJ_AIMER); GStr (lit "(voir la conjugaison)")]
  else if str_eqb name (lit "ja-verbe") then
    root_node [GNode (link_node (lit "Conjugaison:japonais/taberu"));
               GStr (lit "(conjugaison)")]
  else if str_eqb name (lit "ja-mot") then
    root_node [GNode (text_node HTML (lit "span") (lit "kanji"));
               GNode (text_node HTML (lit "span") (lit "taberu"))]
  else if str_eqb name EQUIV_POUR then
    root_node [GNode (text_node ITALIC [] (lit "(pour une femme, on dit"));
               GStr (lit " : ");
               GNode (text_node HTML (lit "bdi") (lit "actrice"));
               GStr (lit ")")]
  else root_node [].

Definition sample_pron (n : WikiNode) : pystr :=
  match dict_get (KInt 1) (template_parameters n) with
  | Some (GStr s) => s
  | _ => []
  end.

Definition sample_subtitles (section_type : pystr) : option LinkageField :=
  if str_eqb section_type (lit "synonymes") then Some Synonyms
  else if str_eqb section_type (lit "apparent" ++ [E_ACUTE] ++ lit "s")
  then Some Related
  else if str_eqb section_type (lit "d" ++ [E_ACUTE] ++ lit "riv" ++ [E_ACUTE]
                                  ++ lit "s")
  then Some Derived
  else None.

Definition sample_wxr : WiktextractContext :=
  mkContext sample_clean_node sample_expand sample_expand sample_pron
            [lit "pron"; lit "prononciation"; lit "//"]
            (fun _ _ title => [mkForm (lit "aimons") [] title])
            (fun s => [s])
            sample_subtitles
            (fun s => s)
            true.

Definition entry (lang_code pos : pystr) (forms : loc) : WordEntry :=
  mkWordEntry lang_code pos forms [] [] [] [] [].

Definition conj_template : WikiNode := template_node (lit "conj") [].

Definition fr_verb (forms : loc) : WordEntry :=
  entry (lit "fr") (lit "verb") forms.

(** One French verb entry without forms. *)
Definition one_entry : State :=
  mkState [fr_verb 0%nat] {[ 0%nat := [] ]} [].

(** Two verb entries of the same language; the first has one form, taken
    from the conjugation page, at its own list. *)
Definition two_entries (title : pystr) : State :=
  mkState [fr_verb 0%nat; fr_verb 1%nat]
          {[ 0%nat := [mkForm (lit "aimons") [] title]; 1%nat := [] ]} [].

(** Two verb entries of the same language, neither with forms yet. *)
Definition two_entries_no_forms : State :=
  mkState [fr_verb 0%nat; fr_verb 1%nat] {[ 0%nat := []; 1%nat := [] ]} [].

(** The text of a child of a list item that comes after the word: a
    string as it is, a node cleaned. *)
Definition fragment_text (wxr : WiktextractContext) (c : GeneralNode)
  : pystr :=
  match c with
  | GStr s => s
  | _ => clean_node wxr (Some c)
  end.

(** A fragment that neither opens nor closes a parenthesis split over
    fragments and is not a separator. *)
Definition plain_fragment (tag_text : pystr) : bool :=
  andb (negb (opens_paren tag_text))
       (andb (negb (closes_paren tag_text)) (negb (is_separator tag_text))).

(** A record whose word is set, and fragments of a list item. *)
Definition mot : Linkage := with_word (lit "mot") new_linkage.

Definition split_fragments : list (nat * GeneralNode) :=
  [(1%nat, GStr (lit " (a")); (2%nat, GStr (lit " b "));
   (3%nat, GStr (lit "c)"))].

Definition reopened_fragments : list (nat * GeneralNode) :=
  [(1%nat, GStr (lit "(a")); (2%nat, GStr (lit "(b"));
   (3%nat, GStr (lit "c)"))].

(** [str.isdecimal]: non-empty and every character is a decimal digit. *)
Definition isdecimal (s : pystr) : bool :=
  andb (nonempty s) (forallb isdecimal_char s).




(** The template names that [extract_form_line] hands to no handler of
    their own, so that they reach the last branch of its dispatch. *)
Definition default_branch (wxr : WiktextractContext) (name : pystr) : bool :=
  andb (negb (str_in name (PRON_TEMPLATES wxr)))
    (andb (negb (str_eqb name ([E_ACUTE] ++ lit "quiv-pour")))
       (andb (negb (startswith name (lit "zh-mot")))
          (andb (negb (str_eqb name (lit "ja-mot")))
                (negb (is_conj_name name))))).

(** The state with one more sound in the last entry, and with one more tag
    on the last sound of the last entry. *)
Definition with_new_sound (x : Sound) (s : State) : State :=
  mkState (map_last (fun e => with_sounds (sounds e ++ [x]) e) (page_data s))
          (heap s) (conjugation_calls s).

Definition with_sound_tag (t : pystr) (s : State) : State :=
  mkState
    (map_last
       (fun e =>
          with_sounds
            (map_last
               (fun x => mkSound (ipa x) (zh_pron x) (sound_tags x ++ [t]))
               (sounds e)) e)
       (page_data s))
    (heap s) (conjugation_calls s).

Definition pron_template : WikiNode :=
  template_node (lit "pron") [(KInt 1, GStr (lit "e.me")); (KInt 2, GStr (lit "fr"))].

Definition canada_template : WikiNode := template_node (lit "CA") [].






Definition list_item (marker : pystr) (cs : list GeneralNode) : WikiNode :=
  Node LIST_ITEM marker [] [] [] [] cs.

Definition list_node (marker : pystr) (items : list WikiNode) : WikiNode :=
  Node LIST marker [] [] [] [] (map GNode items).

(** A linkage section: a heading node with the nodes below it. *)
Definition level_node (cs : list GeneralNode) : WikiNode :=
  Node OTHER [] [] [] [] [] cs.

(** A section with the single item [* mot]. *)
Definition one_word_section : WikiNode :=
  level_node [GNode (list_node (lit "*")
                       [list_item (lit "*") [GStr (lit " mot")]])].

(** A section that starts with the table-start template and index [idx]. *)
Definition table_section (idx : pystr) : WikiNode :=
  level_node [GNode (template_node [LPAREN]
                       [(KInt 1, GStr (lit "sens")); (KInt 2, GStr idx)]);
              GNode (list_node (lit "*")
                       [list_item (lit "*") [GStr (lit " mot")]])].



Definition ja_verbe_template : WikiNode := template_node (lit "ja-verbe") [].
Definition ja_mot_template : WikiNode := template_node (lit "ja-mot") [].
Definition CONJ_TABERU : pystr := lit "Conjugaison:japonais/taberu".

Definition ja_verb (forms : loc) : WordEntry :=
  entry (lit "ja") (lit "verb") forms.

(** Two Japanese verb entries, each with its own list of forms; the first
    has a form from the conjugation page. *)
Definition two_ja_entries : State :=
  mkState [ja_verb 0%nat; ja_verb 1%nat]
          {[ 0%nat := [mkForm (lit "tabemasu") [] CONJ_TABERU]; 1%nat := [] ]}
          [].


(** An [équiv-pour] template of the older form line. *)
Definition old_equiv_pour : WikiNode :=
  template_node EQUIV_POUR
    [(KInt 1, GStr (lit "une femme")); (KInt 2, GStr (lit "actrice"))].

Definition old_page_data : list Old.Entry := [ {[ lit "forms" := [] ]} ].

(** What a run may touch.  With [pre] the entries before the last one:
    they stay as they are; the last entry may change, and its list of forms
    may become the list of the entry before it; a list of forms changes
    only if it is the list of one of the last two entries. *)
Definition frame (s s' : State) : Prop :=
  forall pre cur, page_data s = pre ++ [cur] ->
    exists cur',
      page_data s' = pre ++ [cur']
      /\ (forms cur' = forms cur
          \/ exists p, last pre = Some p /\ forms cur' = forms p)
      /\ forall l,
           l <> forms cur ->
           (forall p, last pre = Some p -> l <> forms p) ->
           heap s' !! l = heap s !! l.

(** The same with no list of forms touched at all. *)
Definition frame_strict (s s' : State) : Prop :=
  heap s' = heap s
  /\ forall pre cur, page_data s = pre ++ [cur] ->
       exists cur', page_data s' = pre ++ [cur'] /\ forms cur' = forms cur.


(** ** Vocabulary of the further properties *)

(** The template names [process_linkage_template] has a handler for. *)
Definition link_template_name (name : pystr) : bool :=
  orb (str_eqb name (lit "lien")) (startswith name (lit "zh-lien")).

(** A child of a list item that is not a template node. *)
Definition not_template (c : GeneralNode) : bool :=
  match c with
  | GNode m => negb (is_template m)
  | _ => true
  end.

(** A node of the linkage walk that is a linkage item: neither the
    table-start template nor a list item of marker [;]. *)
Definition linkage_item (n : WikiNode) : bool :=
  andb (negb (andb (is_template n) (str_eqb (template_name n) [LPAREN])))
       (negb (andb (bool_decide (kind n = LIST_ITEM))
                   (str_eqb (sarg n) [SEMICOLON]))).

(** The state with one more record in a linkage list of the last entry. *)
Definition with_linkage (f : LinkageField) (x : Linkage) (s : State) : State :=
  mkState (map_last (linkage_append f x) (page_data s)) (heap s)
          (conjugation_calls s).

(** A tag that [apply_tag] keeps as a tag, and one it reads as a
    translation. *)
Definition is_translation_tag (tag : pystr) : bool := startswith tag dash_prefix.

Definition kept_tag (tag : pystr) : bool :=
  andb (negb (is_translation_tag tag)) (nonempty tag).

(** The item [* {{inconnu}} mot], and the item [* {{inconnu}}]. *)
Definition unknown_template : WikiNode := template_node (lit "inconnu") [].

Definition unknown_then_word : WikiNode :=
  list_item (lit "*") [GNode unknown_template; GStr (lit "mot")].

(** The item [* [[a]], [[b]]] as its children: two links and the text
    between them. *)
Definition link_text (text : pystr) : WikiNode :=
  Node LINK [] [] [] [[GStr text]] [] [GStr text].

Definition two_words_item : WikiNode :=
  list_item (lit "*")
    [GNode (link_text (lit "a")); GStr (lit ", "); GNode (link_text (lit "b"))].

(** The item [* mot (rare, vieilli] whose parenthesis is never closed. *)
Definition unclosed_item : WikiNode :=
  list_item (lit "*")
    [GNode (link_text (lit "mot")); GStr (lit " (rare"); GStr (lit " vieilli")].

(** The entry [e'] is [e] but for the linkage list [F], if any. *)
Definition entry_kept (F : option LinkageField) (e e' : WordEntry) : Prop :=
  lang_code e' = lang_code e
  /\ pos e' = pos e
  /\ forms e' = forms e
  /\ sounds e' = sounds e
  /\ tags e' = tags e
  /\ forall f, Some f <> F -> linkage_of f e' = linkage_of f e.

(** A run that changes at most the linkage list [F] of the last entry. *)
Definition only_list (F : option LinkageField) (s s' : State) : Prop :=
  heap s' = heap s
  /\ conjugation_calls s' = conjugation_calls s
  /\ forall pre cur, page_data s = pre ++ [cur] ->
       exists cur', page_data s' = pre ++ [cur'] /\ entry_kept F cur cur'.

(** The list [extract_linkage] writes to in a section. *)
Definition target_list (wxr : WiktextractContext) (section_type : pystr)
  : option LinkageField :=
  if str_eqb section_type derives_autres_langues then Some Derived
  else LINKAGE_SUBTITLES wxr section_type.

(** A run that leaves the language, the part of speech and the linkage
    lists of the last entry as they are. *)
Definition keeps_linkage (s s' : State) : Prop :=
  forall pre cur, page_data s = pre ++ [cur] ->
    exists cur',
      page_data s' = pre ++ [cur']
      /\ lang_code cur' = lang_code cur
      /\ pos cur' = pos cur
      /\ forall f, linkage_of f cur' = linkage_of f cur.





(** The names of the template nodes of a form line, in order. *)
Definition template_names (nodes : list GeneralNode) : list pystr :=
  omap (fun c => match c with
                 | GNode n =>
                     if is_template n then Some (template_name n) else None
                 | _ => None
                 end) nodes.

(** The tags that the italic nodes among [nodes] give: their texts, but
    for the word [ou]. *)
Definition italic_tags (wxr : WiktextractContext) (nodes : list GeneralNode)
  : list pystr :=
  omap (fun c => match c with
                 | GNode n =>
                     if bool_decide (kind n = ITALIC) then
                       let tag := clean_node wxr (Some (GNode n)) in
                       if str_eqb tag (lit "ou") then None else Some tag
                     else None
                 | _ => None
                 end) nodes.

(** The state with more tags on the last entry. *)
Definition with_more_tags (ts : list pystr) (s : State) : State :=
  mkState (map_last (fun e => with_tags (tags e ++ ts) e) (page_data s))
          (heap s) (conjugation_calls s).

(** A title for which [process_conj_template] may call
    [extract_conjugation]. *)
Definition conjugation_title (title : pystr) : Prop :=
  startswith title (lit "Conjugaison:") = true
  /\ str_in (split1_last SLASH title) group_names = false.

(** The calls of [extract_conjugation] made by a run are for conjugation
    titles. *)
Definition calls_conjugation_pages (s s' : State) : Prop :=
  exists new,
    conjugation_calls s' = conjugation_calls s ++ new
    /\ Forall conjugation_title new.

(** A form line of three italic nodes, [masculin], [ou] and [singulier],
    with blanks between them. *)
Definition italic_line : list GeneralNode :=
  [GStr (lit " "); GNode (text_node ITALIC [] (lit "masculin"));
   GStr (lit " "); GNode (text_node ITALIC [] (lit "ou"));
   GNode (text_node ITALIC [] (lit "singulier"))].

(** A gender template that renders as [(masculin)], one that renders as
    empty parentheses. *)
Definition sample_text_2 (name : pystr) : pystr :=
  if str_eqb name (lit "m") then lit "(masculin)"
  else if str_eqb name (lit "vide") then lit "()"
  else sample_text name.

Definition gender_wxr : WiktextractContext :=
  mkContext
    (fun v => match v with
              | Some (GNode n) =>
                  if is_template n then sample_text_2 (template_name n)
                  else sample_clean_node v
              | _ => sample_clean_node v
              end)
    sample_expand sample_expand sample_pron
    [lit "pron"; lit "prononciation"; lit "//"]
    (fun _ _ title => [mkForm (lit "aimons") [] title])
    (fun s => [s])
    sample_subtitles
    (fun s => s)
    true.

(** What a form appended by [process_equiv_pour_template] looks like,
    with [xs] the italic and HTML children of the expanded template: its
    text is the non-empty text of a [bdi] child, its source names the
    template, and it has no tag or the one non-empty tag made of an italic
    child. *)
Definition equiv_pour_form (wxr : WiktextractContext) (xs : list WikiNode)
    (f : Form) : Prop :=
  form f <> []
  /\ source f = equiv_pour_source
  /\ (exists b, In b xs /\ kind b = HTML /\ tag b = lit "bdi"
                /\ form f = clean_node wxr (Some (GNode b)))
  /\ (form_tags f = []
      \/ exists it, In it xs /\ kind it = ITALIC
                    /\ strip_parens_space (clean_node wxr (Some (GNode it)))
                       <> []
                    /\ form_tags f
                       = [strip_parens_space
                            (clean_node wxr (Some (GNode it)))]).

(** The tag carried by the loop of [process_equiv_pour_template]. *)
Definition equiv_pour_tag (wxr : WiktextractContext) (xs : list WikiNode)
    (form_tag : pystr) : Prop :=
  form_tag = []
  \/ exists it, In it xs /\ kind it = ITALIC
                /\ form_tag
                   = strip_parens_space (clean_node wxr (Some (GNode it))).

Definition equiv_pour_template : WikiNode := template_node EQUIV_POUR [].

(** The sound [process_zh_mot_template] makes of a template of the
    pre-expanded node, if any. *)
Definition zh_mot_sound (wxr : WiktextractContext) (template_node : WikiNode)
  : option Sound :=
  if str_eqb (lower wxr (template_name template_node)) (lit "lang") then
    Some (mkSound [] (clean_node wxr (Some (GNode template_node)))
                  [lit "Pinyin"])
  else if str_in (template_name template_node)
                 [lit "pron"; lit "prononciation"] then
    Some (mkSound (clean_node wxr (Some (GNode template_node))) [] [])
  else None.

Definition with_more_sounds (xs : list Sound) (s : State) : State :=
  mkState (map_last (fun e => with_sounds (sounds e ++ xs) e) (page_data s))
          (heap s) (conjugation_calls s).

Definition zh_mot_template : WikiNode := template_node (lit "zh-mot") [].

(** A context in which [zh-mot] pre-expands to a [Lang] template, a
    template of another name and a [pron] template, and templates render
    as their first parameter. *)
Definition zh_pre_expand (n : WikiNode) : WikiNode :=
  if str_eqb (template_name n) (lit "zh-mot") then
    root_node
      [GNode (template_node (lit "lang") [(KInt 1, GStr (lit "ma"))]);
       GNode (template_node (lit "autre") []);
       GNode (template_node (lit "pron") [])]
  else root_node [].

Definition zh_wxr : WiktextractContext :=
  mkContext
    (fun v => match v with
              | Some (GNode n) =>
                  if is_template n then sample_pron n else sample_clean_node v
              | _ => sample_clean_node v
              end)
    sample_expand zh_pre_expand sample_pron
    [lit "pron"; lit "prononciation"; lit "//"]
    (fun _ _ title => [mkForm (lit "aimons") [] title])
    (fun s => [s])
    sample_subtitles
    (fun s => s)
    true.

(** The nodes of the linkage walk that [process_linkage_list] reads
    something from: the list items and the table-start templates. *)
Definition walk_counts (n : WikiNode) : bool :=
  orb (negb (is_template n)) (str_eqb (template_name n) [LPAREN]).

(** A template node as the parser makes it: its arguments are not among
    its children. *)
Definition childless_template (n : WikiNode) : Prop :=
  is_template n = true -> children n = [].

(** The section with the item [* {{lien|mot}}]. *)
Definition lien_template : WikiNode :=
  template_node (lit "lien") [(KInt 1, GStr (lit "mot"))].

Definition lien_section : WikiNode :=
  level_node [GNode (list_node (lit "*")
                       [list_item (lit "*") [GNode lien_template]])].

(** ** Vocabulary of the conjugation links *)

(** A link to the conjugation page [conj_title]: its first argument
    starts with that string, which starts with [Conjugaison:] and names no
    verb group. *)
Definition conj_page_link (link : WikiNode) (conj_title : pystr) : Prop :=
  (exists r0 r1, largs link = (GStr conj_title :: r0) :: r1)
  /\ startswith conj_title (lit "Conjugaison:") = true
  /\ ~ In (split1_last SLASH conj_title) group_names.

(** A link the loop of [process_conj_template] passes over: it has no
    argument, or its title is no conjugation page or names a verb
    group. *)
Definition passed_link (link : WikiNode) : Prop :=
  match largs link with
  | [] => True
  | (GStr title :: _) :: _ =>
      startswith title (lit "Conjugaison:") = false
      \/ In (split1_last SLASH title) group_names
  | _ => False
  end.

(** A context in which [conj] expands to a link to the page of the verb
    group, then a link to the conjugation page. *)
Definition GROUP_PAGE : pystr :=
  lit "Conjugaison:" ++ FRANCAIS ++ lit "/Premier groupe".

Definition group_first_expand (n : WikiNode) : WikiNode :=
  if str_eqb (template_name n) (lit "conj") then
    root_node [GNode (link_node GROUP_PAGE); GNode (link_node CONJ_AIMER);
               GStr (lit "(voir la conjugaison)")]
  else sample_expand n.

Definition group_first_wxr : WiktextractContext :=
  mkContext sample_clean_node group_first_expand sample_expand sample_pron
            [lit "pron"; lit "prononciation"; lit "//"]
            (fun _ _ title => [mkForm (lit "aimons") [] title])
            (fun s => [s])
            sample_subtitles
            (fun s => s)
            true.

(** ** Vocabulary of the revised properties *)







(** The form line [{{pron|e.me|fr}} ''masculin'' {{CA}}]. *)
Definition pron_italic_line : list GeneralNode :=
  [GNode pron_template; GStr (lit " ");
   GNode (text_node ITALIC [] (lit "masculin")); GStr (lit " ");
   GNode canada_template].
(** * Properties *)

(** ** Python strings on examples *)

Example lit_conj : lit "conj" = [99; 111; 110; 106].
Proof. reflexivity. Qed.

Example isdigit_superscript_two : isdigit [178] = true /\ py_int [178] = None.
Proof. split; reflexivity. Qed.

Example py_int_arabic_indic : py_int [1633; 1634] = Some 12%Z.
Proof. reflexivity. Qed.

(** [int] converts 4300 digits and refuses 4301. *)
Example py_int_limit :
  py_int (repeat 49 4300) <> None /\ py_int (repeat 49 4301) = None.
Proof. split; [vm_compute; discriminate|vm_compute; reflexivity]. Qed.

Example index_search_sens :
  index_search (lit "foo (sens 12)") = Some (lit "foo", lit "12", []).
Proof. reflexivity. Qed.

Example index_sub_newline :
  index_sub (lit "foo (1)" ++ [NEWLINE]) = lit "foo" ++ [NEWLINE].
Proof. reflexivity. Qed.

Example split1_last_two : split1_last SLASH (lit "ab/cd/e") = lit "cd/e".
Proof. reflexivity. Qed.

(** ** Lists: the last element *)

Lemma last_map_last {X} (f : X -> X) (l : list X) :
  last (map_last f l) = f <$> last l.
Proof.
  induction l as [|x [|y l'] IH]; try reflexivity.
  change (map_last f (x :: y :: l')) with (x :: map_last f (y :: l')).
  change (last (x :: y :: l')) with (last (y :: l')).
  rewrite <- IH. simpl. destruct l'; reflexivity.
Qed.

Lemma map_last_map_last {X} (f g : X -> X) (l : list X) :
  map_last f (map_last g l) = map_last (fun x => f (g x)) l.
Proof.
  induction l as [|x [|y l'] IH]; try reflexivity.
  change (map_last g (x :: y :: l')) with (x :: map_last g (y :: l')).
  change (map_last (fun x => f (g x)) (x :: y :: l'))
    with (x :: map_last (fun x => f (g x)) (y :: l')).
  rewrite <- IH. simpl. destruct l'; reflexivity.
Qed.

Lemma map_last_id_on {X} (f : X -> X) (l : list X) x :
  last l = Some x -> f x = x -> map_last f l = l.
Proof.
  induction l as [|y [|z l'] IH]; intros Hl Hf.
  - discriminate.
  - simpl in *. congruence.
  - change (map_last f (y :: z :: l')) with (y :: map_last f (z :: l')).
    f_equal. apply IH; assumption.
Qed.

Lemma map_last_ext_on {X} (f g : X -> X) (l : list X) x :
  last l = Some x -> f x = g x -> map_last f l = map_last g l.
Proof.
  induction l as [|y [|z l'] IH]; intros Hl Hf.
  - reflexivity.
  - simpl in *. congruence.
  - change (map_last f (y :: z :: l')) with (y :: map_last f (z :: l')).
    change (map_last g (y :: z :: l')) with (y :: map_last g (z :: l')).
    f_equal. apply IH; assumption.
Qed.

Lemma length_map_last {X} (f : X -> X) (l : list X) :
  length (map_last f l) = length l.
Proof.
  induction l as [|y [|z l'] IH]; try reflexivity.
  change (map_last f (y :: z :: l')) with (y :: map_last f (z :: l')).
  simpl in *. congruence.
Qed.

(** ** The older form line *)

Section OldProperties.
Context (str_of : GeneralNode -> pystr).

Lemma forms_of_cons params form_type i rest :
  Old.forms_of str_of params form_type (i :: rest)
  = match dict_get (KInt (Z.of_nat i)) params with
    | Some form =>
        Old.mkFormItem form [lit "pour " ++ Old.format str_of form_type]
          :: Old.forms_of str_of params form_type rest
    | None => Old.forms_of str_of params form_type rest
    end.
Proof.
  unfold Old.forms_of. cbn [omap list_omap].
  destruct (dict_get (KInt (Z.of_nat i)) params); reflexivity.
Qed.

Lemma equiv_pour_args_spec form_type params indexes :
  forall (page_data : list Old.Entry) e fs,
    last page_data = Some e ->
    e !! lit "forms" = Some fs ->
    Old.equiv_pour_args str_of form_type params indexes page_data
    = (Ok tt,
       map_last
         (fun e => <[lit "forms" :=
                       fs ++ Old.forms_of str_of params form_type indexes]> e)
         page_data).
Proof.
  induction indexes as [|i rest IH]; intros page_data e fs Hlast Hforms.
  - cbn [Old.equiv_pour_args]. unfold Old.forms_of. cbn [omap list_omap].
    rewrite app_nil_r. f_equal. symmetry.
    apply (map_last_id_on _ _ e); [assumption|].
    apply insert_id. assumption.
  - cbn [Old.equiv_pour_args]. rewrite forms_of_cons.
    destruct (dict_get (KInt (Z.of_nat i)) params) as [v|] eqn:Hget.
    + unfold Old.append_form. rewrite Hlast, Hforms.
      set (x := Old.mkFormItem v [lit "pour " ++ Old.format str_of form_type]).
      rewrite (IH _ (<[lit "forms" := fs ++ [x]]> e) (fs ++ [x])).
      * f_equal. rewrite map_last_map_last.
        apply (map_last_ext_on _ _ _ e); [assumption|].
        rewrite insert_insert_eq. rewrite <- app_assoc. reflexivity.
      * rewrite last_map_last, Hlast. reflexivity.
      * apply lookup_insert_eq.
    + eapply IH; eassumption.
Qed.

Lemma forms_of_length params form_type indexes :
  (length (Old.forms_of str_of params form_type indexes)
   <= length indexes)%nat.
Proof.
  induction indexes as [|i rest IH]; [reflexivity|].
  rewrite forms_of_cons.
  destruct (dict_get (KInt (Z.of_nat i)) params); cbn [length]; lia.
Qed.

Lemma forms_of_tags params form_type indexes :
  Forall (fun x => Old.item_tags x
                   = [lit "pour " ++ Old.format str_of form_type])
         (Old.forms_of str_of params form_type indexes).
Proof.
  induction indexes as [|i rest IH]; [constructor|].
  rewrite forms_of_cons.
  destruct (dict_get (KInt (Z.of_nat i)) params); auto.
Qed.

End OldProperties.

(** C10.  In the older form line, [process_equiv_pour_template] reads the
    positional parameters 2 to 7 only: on an entry list whose last entry
    has a ["forms"] list, it returns normally, every other key and entry is
    as before, and the forms appended are those of [equiv_pour_forms], one
    for each parameter among 2..7 that is present and none for a missing
    one; they are at most six and each carries the single tag
    ["pour " + parameter 1]. *)
Theorem old_equiv_pour_at_most_six
    (str_of : GeneralNode -> pystr) (node : WikiNode)
    (page_data : list Old.Entry) (e : Old.Entry) (fs : list Old.FormItem) :
  last page_data = Some e ->
  e !! lit "forms" = Some fs ->
  Old.process_equiv_pour_template str_of node page_data
  = (Ok tt,
     map_last (fun e => <[lit "forms" :=
                            fs ++ Old.equiv_pour_forms str_of node]> e)
              page_data)
  /\ (length (Old.equiv_pour_forms str_of node) <= 6)%nat
  /\ Forall (fun x =>
               Old.item_tags x
               = [lit "pour "
                    ++ Old.format str_of
                         (dict_get (KInt 1) (template_parameters node))])
            (Old.equiv_pour_forms str_of node)
  /\ (forall form,
        In form (map Old.item_form (Old.equiv_pour_forms str_of node)) ->
        exists i, (2 <= i <= 7)%Z
                  /\ dict_get (KInt i) (template_parameters node) = Some form).
Proof.
  intros Hlast Hforms.
  split; [|split; [|split]].
  - unfold Old.process_equiv_pour_template.
    erewrite equiv_pour_args_spec by eassumption. reflexivity.
  - apply (forms_of_length str_of (template_parameters node) _ (seq 2 6)).
  - apply (forms_of_tags str_of (template_parameters node) _ (seq 2 6)).
  - intros form Hin. unfold Old.equiv_pour_forms, Old.forms_of in Hin.
    apply in_map_iff in Hin as (x & <- & Hx).
    apply list_elem_of_In in Hx.
    apply list_elem_of_omap in Hx as (i & Hi & Hsome).
    exists (Z.of_nat i). split.
    + apply list_elem_of_In, in_seq in Hi. lia.
    + destruct (dict_get (KInt (Z.of_nat i)) (template_parameters node));
        [|discriminate].
      injection Hsome as <-. reflexivity.
Qed.

(** C10 on [{{équiv-pour|une femme|actrice}}]: one form, tagged
    [pour une femme]. *)
Lemma old_equiv_pour_witness :
  Old.process_equiv_pour_template (fun _ => []) old_equiv_pour old_page_data
  = (Ok tt,
     [ {[ lit "forms" :=
            [Old.mkFormItem (GStr (lit "actrice")) [lit "pour une femme"]] ]} ]).
Proof.
  destruct (old_equiv_pour_at_most_six (fun _ => []) old_equiv_pour
              old_page_data {[ lit "forms" := [] ]} [] eq_refl eq_refl)
    as [H _].
  rewrite H. vm_compute. reflexivity.
Defined.

(** ** Computations *)

Lemma bind_ok {A B} (m : M A) (k : A -> M B) s a s' :
  m s = (Ok a, s') -> bind m k s = k a s'.
Proof. intros H. unfold bind. rewrite H. reflexivity. Qed.

Lemma bind_raise {A B} (m : M A) (k : A -> M B) s e s' :
  m s = (Raise e, s') -> bind m k s = (Raise e, s').
Proof. intros H. unfold bind. rewrite H. reflexivity. Qed.

Lemma for_fold_app {X V} (body : V -> X -> M V) (l1 l2 : list X) v s :
  for_fold body (l1 ++ l2) v s
  = bind (for_fold body l1 v) (for_fold body l2) s.
Proof.
  revert v s. induction l1 as [|x l1 IH]; intros v s.
  - reflexivity.
  - cbn [app for_fold]. unfold bind.
    destruct (body v x s) as [[v'|e] s1]; [|reflexivity].
    rewrite IH. reflexivity.
Qed.

Lemma for_each_app {X} (body : X -> M unit) (l1 l2 : list X) s :
  for_each body (l1 ++ l2) s
  = bind (for_each body l1) (fun _ => for_each body l2) s.
Proof.
  revert s. induction l1 as [|x l1 IH]; intros s.
  - reflexivity.
  - cbn [app for_each]. unfold bind.
    destruct (body x s) as [[v'|e] s1]; [|reflexivity].
    rewrite IH. reflexivity.
Qed.

(** A relation between the state before and the state after that every
    step of a computation respects, whether it returns or raises. *)
Section Preservation.
Context (R : State -> State -> Prop).
Context (R_refl : forall s, R s s).
Context (R_trans : forall s1 s2 s3, R s1 s2 -> R s2 s3 -> R s1 s3).

Lemma preserves_ret {A} (a : A) : preserves R (ret a).
Proof. intros s. apply R_refl. Qed.

Lemma preserves_raise {A} (e : exn) : preserves R (@raise A e).
Proof. intros s. apply R_refl. Qed.

Lemma preserves_bind {A B} (m : M A) (k : A -> M B) :
  preserves R m -> (forall a, preserves R (k a)) -> preserves R (bind m k).
Proof.
  intros Hm Hk s. unfold bind. specialize (Hm s).
  destruct (m s) as [[a|e] s1]; cbn [snd] in *.
  - eapply R_trans; [exact Hm|]. apply Hk.
  - exact Hm.
Qed.

Lemma preserves_for_each {X} (body : X -> M unit) (xs : list X) :
  (forall x, preserves R (body x)) -> preserves R (for_each body xs).
Proof.
  intros Hb. induction xs as [|x xs IH]; cbn [for_each].
  - apply preserves_ret.
  - apply preserves_bind; auto.
Qed.

Lemma preserves_for_fold {X V} (body : V -> X -> M V) (xs : list X) :
  (forall v x, preserves R (body v x)) ->
  forall v, preserves R (for_fold body xs v).
Proof.
  intros Hb. induction xs as [|x xs IH]; intros v; cbn [for_fold].
  - apply preserves_ret.
  - apply preserves_bind; auto.
Qed.

Lemma preserves_last_entry : preserves R last_entry.
Proof.
  intros s. unfold last_entry. destruct (last (page_data s)); apply R_refl.
Qed.

Lemma preserves_if {A} (b : bool) (m1 m2 : M A) :
  preserves R m1 -> preserves R m2 -> preserves R (if b then m1 else m2).
Proof. destruct b; auto. Qed.

End Preservation.

(** ** Linkage lists only grow *)

Section Appends.
Context (P : Linkage -> Prop).

Lemma appends_refl s : appends P s s.
Proof.
  intros e He. exists e. split; [assumption|].
  intros f. exists []. rewrite app_nil_r. split; [reflexivity|constructor].
Qed.

Lemma appends_trans s1 s2 s3 :
  appends P s1 s2 -> appends P s2 s3 -> appends P s1 s3.
Proof.
  intros H12 H23 e He.
  destruct (H12 e He) as (e2 & He2 & Hn2).
  destruct (H23 e2 He2) as (e3 & He3 & Hn3).
  exists e3. split; [assumption|].
  intros f. destruct (Hn2 f) as (n2 & E2 & F2).
  destruct (Hn3 f) as (n3 & E3 & F3).
  exists (n2 ++ n3). rewrite E3, E2, app_assoc. split; [reflexivity|].
  apply Forall_app; split; assumption.
Qed.

Lemma appends_modify_last (g : WordEntry -> WordEntry) :
  (forall e f, exists new,
      linkage_of f (g e) = linkage_of f e ++ new /\ Forall P new) ->
  preserves (appends P) (modify_last g).
Proof.
  intros Hg s. unfold modify_last, bind, last_entry.
  destruct (last (page_data s)) as [e|] eqn:He; cbn [snd].
  - intros e0 He0. cbn [page_data]. rewrite last_map_last, He0.
    exists (g e0). split; [reflexivity|]. apply Hg.
  - apply appends_refl.
Qed.

Lemma linkage_append_grows (F : LinkageField) x e f :
  P x ->
  exists new, linkage_of f (linkage_append F x e) = linkage_of f e ++ new
              /\ Forall P new.
Proof.
  intros Hx.
  destruct (decide (F = f)) as [->|Hne].
  - exists [x]. split; [destruct f; reflexivity|]. repeat constructor; exact Hx.
  - exists []. rewrite app_nil_r. split; [|constructor].
    destruct F, f; try reflexivity; congruence.
Qed.

Lemma appends_append_linkage lt x :
  P x -> preserves (appends P) (append_linkage lt x).
Proof.
  intros Hx. unfold append_linkage.
  apply preserves_bind;
    [apply appends_trans | apply preserves_last_entry, appends_refl |].
  intros _. destruct lt as [F|].
  - apply appends_modify_last. intros e f. apply linkage_append_grows, Hx.
  - apply preserves_raise, appends_refl.
Qed.

Lemma appends_ret {A} (a : A) : preserves (appends P) (ret a).
Proof. apply preserves_ret, appends_refl. Qed.

Lemma appends_raise {A} e : preserves (appends P) (@raise A e).
Proof. apply preserves_raise, appends_refl. Qed.

Lemma appends_bind {A B} (m : M A) (k : A -> M B) :
  preserves (appends P) m -> (forall a, preserves (appends P) (k a)) ->
  preserves (appends P) (bind m k).
Proof. apply preserves_bind, appends_trans. Qed.

Lemma appends_last_entry : preserves (appends P) last_entry.
Proof. apply preserves_last_entry, appends_refl. Qed.

Lemma appends_for_fold {X V} (body : V -> X -> M V) xs :
  (forall v x, preserves (appends P) (body v x)) ->
  forall v, preserves (appends P) (for_fold body xs v).
Proof. apply preserves_for_fold; [apply appends_refl|apply appends_trans]. Qed.

Lemma appends_for_each {X} (body : X -> M unit) xs :
  (forall x, preserves (appends P) (body x)) ->
  preserves (appends P) (for_each body xs).
Proof. apply preserves_for_each; [apply appends_refl|apply appends_trans]. Qed.

(** From here on, a record whose word is set satisfies [P]. *)
Context (P_word : forall l, word_set l = true -> P l).
Context (wxr : WiktextractContext).

Lemma appends_linkage_child lt v ic :
  preserves (appends P) (linkage_child wxr lt v ic).
Proof.
  destruct v as [linkage_data pending_tag], ic as [index child_node].
  unfold linkage_child.
  destruct (Nat.eqb index 0 || negb (word_set linkage_data)) eqn:Hfirst.
  - destruct child_node as [s|n|l]; try apply appends_ret.
    destruct (is_template n); apply appends_ret.
  - apply orb_false_iff in Hfirst as [_ Hw].
    apply negb_false_iff in Hw.
    apply appends_bind.
    + destruct child_node as [s|n|l]; try apply appends_ret;
        (apply appends_bind; [apply appends_last_entry|intros; apply appends_ret]).
    + intros tag_text.
      destruct (opens_paren tag_text); [apply appends_ret|].
      destruct (closes_paren tag_text); [apply appends_ret|].
      destruct (is_separator tag_text).
      * apply appends_bind; [|intros; apply appends_ret].
        apply appends_append_linkage, P_word, Hw.
      * destruct (nonempty pending_tag); apply appends_ret.
Qed.

Lemma appends_linkage_node lt v n :
  preserves (appends P) (linkage_node wxr lt v n).
Proof.
  destruct v as [sense_text sense_index]. unfold linkage_node.
  destruct (is_template n && str_eqb (template_name n) [LPAREN]).
  { cbv zeta.
    match goal with
    | |- context [default (GStr (lit "0")) ?x] =>
        destruct (default (GStr (lit "0")) x)
    end; try apply appends_ret.
    destruct (isdigit _); try apply appends_ret.
    destruct (py_int _); first [apply appends_ret|apply appends_raise]. }
  destruct (bool_decide (kind n = LIST_ITEM) && str_eqb (sarg n) [SEMICOLON]).
  { destruct (index_search _) as [[[? ?] ?]|]; [|apply appends_ret].
    destruct (py_int _); first [apply appends_ret|apply appends_raise]. }
  apply appends_bind.
  - apply appends_for_fold. intros; apply appends_linkage_child.
  - intros r. apply appends_bind; [|intros; apply appends_ret].
    destruct (word_set (fst r)) eqn:Hw; [|apply appends_ret].
    apply appends_append_linkage, P_word, Hw.
Qed.

Lemma appends_derives_autres_item n :
  preserves (appends P) (derives_autres_item wxr n).
Proof.
  unfold derives_autres_item.
  apply appends_bind; [|intros; apply appends_ret].
  apply appends_for_fold. intros [lang_code lang_name] node.
  unfold derives_autres_node.
  destruct (is_template node && str_eqb (template_name node) (lit "L"));
    [apply appends_ret|].
  destruct (bool_decide (kind node = LINK) || _); [|apply appends_ret].
  apply appends_bind; [|intros; apply appends_ret].
  apply appends_modify_last. intros e f.
  apply linkage_append_grows, P_word. reflexivity.
Qed.

Lemma appends_extract_linkage_items section_type items :
  preserves (appends P) (extract_linkage_items wxr section_type items).
Proof.
  unfold extract_linkage_items.
  destruct (str_eqb section_type derives_autres_langues).
  - apply appends_for_each. intros; apply appends_derives_autres_item.
  - apply appends_bind; [|intros; apply appends_ret].
    apply appends_for_fold. intros; apply appends_linkage_node.
Qed.

Lemma extract_linkage_as_items level_node section_type :
  extract_linkage wxr level_node section_type
  = extract_linkage_items wxr section_type
      (linkage_items level_node section_type).
Proof.
  unfold extract_linkage, extract_linkage_items, linkage_items,
    process_derives_autres_list, process_linkage_list.
  destruct (str_eqb section_type derives_autres_langues); reflexivity.
Qed.

End Appends.

Lemma snd_bind_ret {A B} (m : M A) (b : B) s :
  snd (bind m (fun _ => ret b) s) = snd (m s).
Proof. unfold bind, ret. destruct (m s) as [[a|e] s1]; reflexivity. Qed.

Lemma appends_items_app P wxr section_type items1 items2 s :
  (forall l, word_set l = true -> P l) ->
  appends P
    (snd (extract_linkage_items wxr section_type items1 s))
    (snd (extract_linkage_items wxr section_type (items1 ++ items2) s)).
Proof.
  intros HP. unfold extract_linkage_items.
  destruct (str_eqb section_type derives_autres_langues).
  - rewrite for_each_app. unfold bind.
    destruct (for_each (derives_autres_item wxr) items1 s) as [[[]|e] s1];
      cbn [snd]; [|apply appends_refl].
    apply (appends_for_each P); intros; apply appends_derives_autres_item, HP.
  - rewrite !snd_bind_ret, for_fold_app. unfold bind.
    destruct (for_fold _ items1 _ s) as [[v|e] s1];
      cbn [snd]; [|apply appends_refl].
    apply (appends_for_fold P); intros; apply appends_linkage_node, HP.
Qed.

(** C9.  Every record that [process_linkage_list] appends has its word
    set: after the call, returned or raised, the last entry is still the
    last entry and each of its linkage lists is the list it was followed by
    records whose [word] was assigned. *)
Theorem linkage_records_have_word
    (wxr : WiktextractContext) (level_node : WikiNode)
    (linkage_type : option LinkageField) (s : State) (e : WordEntry) :
  last (page_data s) = Some e ->
  exists e',
    last (page_data (snd (process_linkage_list wxr level_node linkage_type s)))
    = Some e'
    /\ forall f, exists new,
         linkage_of f e' = linkage_of f e ++ new
         /\ Forall (fun l => word l <> None) new.
Proof.
  intros He.
  assert (HP : forall l, word_set l = true -> word l <> None).
  { intros l. unfold word_set. destruct (word l); congruence. }
  assert (H : preserves (appends (fun l => word l <> None))
                (process_linkage_list wxr level_node linkage_type)).
  { unfold process_linkage_list.
    apply appends_bind; [|intros; apply appends_ret].
    apply appends_for_fold. intros. apply appends_linkage_node, HP. }
  exact (H s e He).
Qed.

(** C9 on a section of one word. *)
Lemma linkage_records_have_word_witness :
  exists e',
    last (page_data
            (snd (process_linkage_list sample_wxr one_word_section
                    (Some Synonyms) one_entry))) = Some e'
    /\ forall f, exists new,
         linkage_of f e' = linkage_of f (fr_verb 0%nat) ++ new
         /\ Forall (fun l => word l <> None) new.
Proof.
  exact (linkage_records_have_word sample_wxr one_word_section
           (Some Synonyms) one_entry (fr_verb 0%nat) eq_refl).
Defined.

(** C7.  [extract_linkage] only extends the linkage lists of the last
    entry: after the call, returned or raised, each list starts with the
    records it had, unchanged and in their order.  The new records come in
    the order of the nodes walked: wherever the walk is cut in two, the
    lists as they are after the first part are a prefix of the final
    lists. *)
Theorem extract_linkage_append_only
    (wxr : WiktextractContext) (level_node : WikiNode) (section_type : pystr)
    (s : State) (e : WordEntry) :
  last (page_data s) = Some e ->
  (exists e',
     last (page_data (snd (extract_linkage wxr level_node section_type s)))
     = Some e'
     /\ forall f, exists new, linkage_of f e' = linkage_of f e ++ new)
  /\ forall items1 items2,
       linkage_items level_node section_type = items1 ++ items2 ->
       exists e1 e2,
         last (page_data
                 (snd (extract_linkage_items wxr section_type items1 s)))
         = Some e1
         /\ last (page_data
                    (snd (extract_linkage wxr level_node section_type s)))
            = Some e2
         /\ forall f, exists new1 new2,
              linkage_of f e1 = linkage_of f e ++ new1
              /\ linkage_of f e2 = linkage_of f e ++ new1 ++ new2.
Proof.
  intros He.
  pose (P := fun _ : Linkage => True).
  assert (HP : forall l, word_set l = true -> P l) by (intros; exact I).
  split.
  - rewrite extract_linkage_as_items.
    destruct (appends_extract_linkage_items P HP wxr section_type
                (linkage_items level_node section_type) s e He)
      as (e' & He' & Hn).
    exists e'. split; [assumption|].
    intros f. destruct (Hn f) as (new & E & _). eauto.
  - intros items1 items2 Hsplit.
    rewrite extract_linkage_as_items, Hsplit.
    destruct (appends_extract_linkage_items P HP wxr section_type items1 s e He)
      as (e1 & He1 & Hn1).
    destruct (appends_items_app P wxr section_type items1 items2 s HP e1 He1)
      as (e2 & He2 & Hn2).
    exists e1, e2. split; [assumption|]. split; [assumption|].
    intros f. destruct (Hn1 f) as (n1 & E1 & _).
    destruct (Hn2 f) as (n2 & E2 & _).
    exists n1, n2. split; [assumption|].
    rewrite E2, E1, app_assoc. reflexivity.
Qed.

(** C7 on a section of one word. *)
Lemma extract_linkage_append_only_witness :
  exists e',
    last (page_data
            (snd (extract_linkage sample_wxr one_word_section
                    (lit "synonymes") one_entry))) = Some e'
    /\ forall f, exists new,
         linkage_of f e' = linkage_of f (fr_verb 0%nat) ++ new.
Proof.
  destruct (extract_linkage_append_only sample_wxr one_word_section
              (lit "synonymes") one_entry (fr_verb 0%nat) eq_refl) as [H _].
  exact H.
Defined.

(** ** The Japanese form line *)

Lemma str_eqb_true s t : str_eqb s t = true <-> s = t.
Proof. unfold str_eqb. apply bool_decide_eq_true. Qed.

Lemma str_in_true s l : str_in s l = true <-> In s l.
Proof.
  unfold str_in. rewrite existsb_exists. split.
  - intros (x & Hx & E). apply str_eqb_true in E. subst. assumption.
  - intros H. exists s. split; [assumption|]. apply str_eqb_true. reflexivity.
Qed.

Lemma ja_mot_loop_find wxr existing spans s :
  ja_mot_loop wxr existing spans s
  = match List.find (fun p => Nat.eqb (fst p) 1) spans with
    | Some (_, node) =>
        let form_text := clean_node wxr (Some (GNode node)) in
        if str_in form_text existing then (Ok tt, s)
        else append_form (mkForm form_text [lit "romanization"] []) s
    | None => (Ok tt, s)
    end.
Proof.
  induction spans as [|[index node] rest IH]; [reflexivity|].
  cbn [ja_mot_loop List.find fst].
  destruct (Nat.eqb index 1); [|exact IH].
  cbv zeta. destruct (str_in _ existing); reflexivity.
Qed.

Lemma append_form_last x s e :
  last (page_data s) = Some e ->
  append_form x s
  = (Ok tt, mkState (page_data s)
                    (<[forms e := deref (heap s) (forms e) ++ [x]]> (heap s))
                    (conjugation_calls s)).
Proof.
  intros He. unfold append_form, extend_forms, bind, last_entry.
  rewrite He. reflexivity.
Qed.

Lemma deref_insert h l fs : deref (<[l := fs]> h) l = fs.
Proof. unfold deref. rewrite lookup_insert_eq. reflexivity. Qed.

(** C6.  [process_ja_mot_template] appends at most one form to the last
    entry, and never one whose text an existing form already has.  With
    [fs] the forms of the last entry before the call: the call returns;
    [page_data] and every other list of forms are as before; when
    [find_html] reports no span at index 1, or the text of the first such
    span is the text of a form in [fs], the forms are [fs] unchanged;
    otherwise they are [fs] followed by the one form of that text, tagged
    [romanization]. *)
Theorem ja_mot_appends_once
    (wxr : WiktextractContext) (template_node : WikiNode)
    (s : State) (e : WordEntry) :
  last (page_data s) = Some e ->
  let fs := deref (heap s) (forms e) in
  let spans :=
    find_html_index (lit "span") (parse_expand_all wxr template_node) in
  exists s',
    process_ja_mot_template wxr template_node s = (Ok tt, s')
    /\ page_data s' = page_data s
    /\ conjugation_calls s' = conjugation_calls s
    /\ (forall l, l <> forms e -> heap s' !! l = heap s !! l)
    /\ (length (deref (heap s') (forms e)) <= length fs + 1)%nat
    /\ match List.find (fun p => Nat.eqb (fst p) 1) spans with
       | Some (_, node) =>
           let form_text := clean_node wxr (Some (GNode node)) in
           (In form_text (map form fs) -> s' = s)
           /\ (~ In form_text (map form fs) ->
               deref (heap s') (forms e)
               = fs ++ [mkForm form_text [lit "romanization"] []])
       | None => s' = s
       end.
Proof.
  intros He fs spans.
  unfold process_ja_mot_template, last_forms, bind, last_entry.
  rewrite He. rewrite ja_mot_loop_find. fold spans. fold fs.
  destruct (List.find (fun p => Nat.eqb (fst p) 1) spans) as [[i node]|].
  - cbv zeta.
    destruct (str_in (clean_node wxr (Some (GNode node))) (map form fs))
      eqn:Hin.
    + exists s. do 4 (split; [reflexivity|]). split; [unfold fs; lia|].
      split; [reflexivity|].
      intros Hn. apply str_in_true in Hin. contradiction.
    + rewrite (append_form_last _ _ e He). fold fs.
      eexists. split; [reflexivity|]. cbn [page_data conjugation_calls heap].
      split; [reflexivity|]. split; [reflexivity|].
      split; [intros l Hl; apply lookup_insert_ne; congruence|].
      rewrite deref_insert. split; [rewrite length_app; cbn; lia|].
      split; [|reflexivity].
      intros Hyes. apply str_in_true in Hyes. congruence.
  - exists s. do 4 (split; [reflexivity|]).
    split; [unfold fs; lia|reflexivity].
Qed.

(** C6 on an entry without forms: the romanization is appended. *)
Lemma ja_mot_appends_once_witness :
  exists s',
    process_ja_mot_template sample_wxr ja_mot_template one_entry = (Ok tt, s')
    /\ deref (heap s') 0%nat = [mkForm (lit "taberu") [lit "romanization"] []].
Proof.
  destruct (ja_mot_appends_once sample_wxr ja_mot_template one_entry
              (fr_verb 0%nat) eq_refl)
    as (s' & Hrun & _ & _ & _ & _ & Hfind).
  exists s'. split; [exact Hrun|].
  destruct Hfind as [_ Hnew]. apply Hnew.
  intros Hin. vm_compute in Hin. exact Hin.
Defined.

(** ** Reuse of the forms of the entry before *)

Lemma last_two_last {X} (l : list X) p c :
  last_two l = Some (p, c) -> last l = Some c.
Proof.
  induction l as [|x [|y [|z l']] IH]; intros H; try discriminate.
  - injection H as -> ->. reflexivity.
  - change (last (x :: y :: z :: l')) with (last (y :: z :: l')).
    apply IH. exact H.
Qed.

Lemma modify_last_ok g s e :
  last (page_data s) = Some e ->
  modify_last g s
  = (Ok tt, mkState (map_last g (page_data s)) (heap s) (conjugation_calls s)).
Proof.
  intros He. unfold modify_last, bind, last_entry. rewrite He. reflexivity.
Qed.

Lemma same_conjugation_some title s l :
  same_conjugation title s = Some l <->
  exists prev cur, last_two (page_data s) = Some (prev, cur)
                   /\ reusable_forms title s prev cur /\ l = forms prev.
Proof.
  unfold same_conjugation, reusable_forms.
  destruct (last_two (page_data s)) as [[prev cur]|]; split.
  - destruct (str_eqb (lang_code prev) (lang_code cur)) eqn:E1;
      [|discriminate].
    destruct (str_eqb (pos prev) (pos cur)) eqn:E2; [|discriminate].
    destruct (last (deref (heap s) (forms prev))) as [f|] eqn:Hf;
      [|discriminate].
    destruct (str_eqb (source f) title) eqn:E3; [|discriminate].
    cbn [andb]. intros [= <-].
    apply str_eqb_true in E1, E2, E3.
    exists prev, cur. repeat split; try assumption. eauto.
  - intros (p & c & [= <- <-] & (E1 & E2 & f & Hf & E3) & ->).
    rewrite Hf.
    apply str_eqb_true in E1, E2, E3. rewrite E1, E2, E3. reflexivity.
  - discriminate.
  - intros (p & c & H & _). discriminate.
Qed.

Lemma tag_tail (b : bool) t s e :
  last (page_data s) = Some e ->
  exists s',
    (_ <- last_entry ;; if b then append_tag t else ret tt) s = (Ok tt, s')
    /\ heap s' = heap s
    /\ conjugation_calls s' = conjugation_calls s
    /\ forms <$> last (page_data s') = Some (forms e).
Proof.
  intros He. unfold bind at 1. unfold last_entry at 1. rewrite He.
  destruct b.
  - unfold append_tag. rewrite (modify_last_ok _ _ e He).
    eexists. split; [reflexivity|]. cbn [heap conjugation_calls page_data].
    rewrite last_map_last, He. repeat split; reflexivity.
  - exists s. rewrite He. repeat split; reflexivity.
Qed.

Lemma conj_link_qualifying wxr link conj_title r0 r1 s :
  largs link = (GStr conj_title :: r0) :: r1 ->
  startswith conj_title (lit "Conjugaison:") = true ->
  ~ In (split1_last SLASH conj_title) group_names ->
  conj_link wxr link s
  = match same_conjugation conj_title s with
    | Some l => assign_forms (validate_assignment wxr) l s
    | None => call_extract_conjugation wxr conj_title s
    end.
Proof.
  intros Hl Hs Hg. unfold conj_link. rewrite Hl, Hs. cbn [negb].
  destruct (str_in (split1_last SLASH conj_title) group_names) eqn:E;
    [|reflexivity].
  apply str_in_true in E. contradiction.
Qed.

Lemma call_extract_conjugation_ok wxr title s e :
  last (page_data s) = Some e ->
  call_extract_conjugation wxr title s
  = (Ok tt,
     mkState (page_data s)
       (<[forms e :=
            deref (heap s) (forms e)
              ++ extract_conjugation wxr e (deref (heap s) (forms e)) title]>
          (heap s))
       (conjugation_calls s ++ [title])).
Proof.
  intros He.
  unfold call_extract_conjugation, last_forms, extend_forms, bind, last_entry.
  repeat (rewrite He; cbn [page_data]). reflexivity.
Qed.

Lemma assign_forms_ok copy l s cur :
  last (page_data s) = Some cur ->
  assign_forms copy l s
  = (Ok tt,
     if copy
     then mkState (page_data s) (<[forms cur := deref (heap s) l]> (heap s))
                  (conjugation_calls s)
     else mkState (map_last (with_forms l) (page_data s)) (heap s)
                  (conjugation_calls s)).
Proof.
  intros He. unfold assign_forms. destruct copy.
  - unfold bind, last_entry. rewrite He. reflexivity.
  - apply (modify_last_ok _ _ cur He).
Qed.

Lemma conj_link_passed wxr link s :
  passed_link link -> conj_link wxr link s = (Ok tt, s).
Proof.
  unfold passed_link, conj_link.
  destruct (largs link) as [|[|[title|m|l] r0] r1]; try contradiction;
    try reflexivity.
  intros [H|H].
  - rewrite H. reflexivity.
  - apply str_in_true in H. rewrite H.
    destruct (negb _); reflexivity.
Qed.

Lemma conj_links_passed wxr links s :
  Forall passed_link links -> for_each (conj_link wxr) links s = (Ok tt, s).
Proof.
  induction 1 as [|link links H _ IH]; [reflexivity|].
  cbn [for_each]. rewrite (bind_ok _ _ _ _ _ (conj_link_passed wxr link s H)).
  exact IH.
Qed.

(** C3, as the code has it.  The loop of [process_conj_template] passes
    over the links without argument, the links to other pages and the
    links to the page of a verb group: they change nothing.  When the loop
    reaches, in the state [s1], a link to a conjugation page [conj_title]
    (a title that starts with [Conjugaison:] and names no verb group):
    - when the entry before the last has the language and the part of
      speech of the last entry, has forms, and its last form has
      [conj_title] as source, the forms of that entry are assigned to the
      last entry, which has them as its forms afterwards, and
      [extract_conjugation] is not called;
    - in every other case [extract_conjugation] is called once, for
      [conj_title], on the last entry, which keeps its own list;
    and when only links of the first kind follow, [process_conj_template]
    returns with these forms and calls. *)
Theorem conj_forms_reuse
    (wxr : WiktextractContext) (template_node link : WikiNode)
    (before after : list WikiNode) (conj_title : pystr)
    (s s1 : State) (cur : WordEntry) :
  find_child [LINK] (parse_expand_all wxr template_node)
  = before ++ link :: after ->
  conj_page_link link conj_title ->
  for_each (conj_link wxr) before s = (Ok tt, s1) ->
  last (page_data s1) = Some cur ->
  (Forall passed_link before -> s1 = s)
  /\ exists s2,
       for_each (conj_link wxr) (before ++ [link]) s = (Ok tt, s2)
       /\ (forall prev,
             last_two (page_data s1) = Some (prev, cur) ->
             reusable_forms conj_title s1 prev cur ->
             assign_forms (validate_assignment wxr) (forms prev) s1
             = (Ok tt, s2)
             /\ conjugation_calls s2 = conjugation_calls s1
             /\ exists cur',
                  last (page_data s2) = Some cur'
                  /\ deref (heap s2) (forms cur')
                     = deref (heap s1) (forms prev))
       /\ ((~ exists prev,
               last_two (page_data s1) = Some (prev, cur)
               /\ reusable_forms conj_title s1 prev cur) ->
           page_data s2 = page_data s1
           /\ conjugation_calls s2 = conjugation_calls s1 ++ [conj_title]
           /\ heap s2
              = <[forms cur :=
                    deref (heap s1) (forms cur)
                      ++ extract_conjugation wxr cur
                           (deref (heap s1) (forms cur)) conj_title]>
                  (heap s1))
       /\ (Forall passed_link after ->
           exists s',
             process_conj_template wxr template_node s = (Ok tt, s')
             /\ heap s' = heap s2
             /\ conjugation_calls s' = conjugation_calls s2
             /\ forms <$> last (page_data s')
                = forms <$> last (page_data s2)).
Proof.
  intros Hfind ((r0 & r1 & Hlargs) & Hstart & Hgroup) Hbefore Hcur.
  split.
  { intros Hp. rewrite (conj_links_passed wxr before s Hp) in Hbefore.
    congruence. }
  assert (Hstep : for_each (conj_link wxr) (before ++ [link]) s
                  = conj_link wxr link s1).
  { rewrite for_each_app, (bind_ok _ _ _ _ _ Hbefore). cbn [for_each].
    unfold bind. destruct (conj_link wxr link s1) as [[[]|e] s2]; reflexivity. }
  rewrite (conj_link_qualifying _ _ _ _ _ _ Hlargs Hstart Hgroup) in Hstep.
  assert (Htail : forall s2 e2,
             for_each (conj_link wxr) (before ++ [link]) s = (Ok tt, s2) ->
             last (page_data s2) = Some e2 ->
             Forall passed_link after ->
             exists s',
               process_conj_template wxr template_node s = (Ok tt, s')
               /\ heap s' = heap s2
               /\ conjugation_calls s' = conjugation_calls s2
               /\ forms <$> last (page_data s')
                  = forms <$> last (page_data s2)).
  { intros s2 e2 Hrun He2 Hafter. unfold process_conj_template.
    rewrite Hfind.
    change (before ++ link :: after) with (before ++ [link] ++ after).
    rewrite app_assoc. unfold bind at 1. rewrite for_each_app.
    rewrite (bind_ok _ _ _ _ _ Hrun).
    rewrite (conj_links_passed wxr after s2 Hafter).
    cbv zeta.
    match goal with
    | |- context [bind last_entry
                    (fun _ => if nonempty ?t then append_tag ?t else ret tt)
                    ?st] =>
        destruct (tag_tail (nonempty t) t st e2 He2)
          as (s' & Hrun' & Hheap & Hcalls & Hforms)
    end.
    exists s'. split; [exact Hrun'|]. rewrite He2.
    repeat split; assumption. }
  destruct (same_conjugation conj_title s1) as [l|] eqn:Hsame.
  - apply same_conjugation_some in Hsame as (prev & cur' & H2 & Hre & ->).
    assert (cur' = cur) as ->.
    { apply last_two_last in H2. congruence. }
    rewrite (assign_forms_ok _ _ _ cur Hcur) in Hstep.
    eexists. split; [exact Hstep|]. split; [|split].
    + intros prev' H2' _. rewrite H2 in H2'. injection H2' as ->.
      split; [apply (assign_forms_ok _ _ _ cur Hcur)|].
      destruct (validate_assignment wxr); cbn [conjugation_calls page_data heap].
      * split; [reflexivity|]. exists cur. split; [exact Hcur|].
        apply deref_insert.
      * split; [reflexivity|]. exists (with_forms (forms prev') cur).
        rewrite last_map_last, Hcur. split; reflexivity.
    + intros Hno. exfalso. apply Hno. exists prev. split; assumption.
    + destruct (validate_assignment wxr).
      * apply (Htail _ cur Hstep). exact Hcur.
      * apply (Htail _ (with_forms (forms prev) cur) Hstep).
        cbn [page_data]. rewrite last_map_last, Hcur. reflexivity.
  - rewrite (call_extract_conjugation_ok _ _ _ cur Hcur) in Hstep.
    eexists. split; [exact Hstep|]. split; [|split].
    + intros prev H2 Hre. exfalso.
      assert (Hsome : same_conjugation conj_title s1 = Some (forms prev)).
      { apply same_conjugation_some. exists prev, cur. auto. }
      congruence.
    + intros _. repeat split; reflexivity.
    + apply (Htail _ cur Hstep). exact Hcur.
Qed.

Lemma aimer_is_no_group : ~ In (split1_last SLASH CONJ_AIMER) group_names.
Proof.
  intros Hin. apply str_in_true in Hin. vm_compute in Hin. discriminate.
Qed.

(** C3, a run of the theorem on an expansion that links to the page of
    the verb group before it links to [Conjugaison:français/aimer]: the
    entry before has a form from that page, so the last entry has that
    form afterwards and [extract_conjugation] is not called. *)
Lemma conj_forms_reuse_witness :
  exists s',
    process_conj_template group_first_wxr conj_template
      (two_entries CONJ_AIMER) = (Ok tt, s')
    /\ conjugation_calls s' = []
    /\ exists s2 cur',
         last (page_data s2) = Some cur'
         /\ heap s' = heap s2
         /\ deref (heap s2) (forms cur')
            = [mkForm (lit "aimons") [] CONJ_AIMER].
Proof.
  assert (Hlink : conj_page_link (link_node CONJ_AIMER) CONJ_AIMER).
  { split; [exists [], []; reflexivity|].
    split; [reflexivity|exact aimer_is_no_group]. }
  assert (Hgroup : Forall passed_link [link_node GROUP_PAGE]).
  { constructor; [|constructor]. right. apply str_in_true. reflexivity. }
  destruct (conj_forms_reuse group_first_wxr conj_template
              (link_node CONJ_AIMER) [link_node GROUP_PAGE] [] CONJ_AIMER
              (two_entries CONJ_AIMER) (two_entries CONJ_AIMER)
              (fr_verb 1%nat) eq_refl Hlink
              (conj_links_passed group_first_wxr _ _ Hgroup) eq_refl)
    as (_ & s2 & _ & Hreuse & _ & Hall).
  destruct (Hall (List.Forall_nil passed_link)) as (s' & Hrun & Hheap & Hcalls & _).
  destruct (Hreuse (fr_verb 0%nat) eq_refl) as (_ & Hc & cur' & Hl & Hd).
  { split; [reflexivity|]. split; [reflexivity|].
    exists (mkForm (lit "aimons") [] CONJ_AIMER). split; reflexivity. }
  exists s'. split; [exact Hrun|]. split; [rewrite Hcalls, Hc; reflexivity|].
  exists s2, cur'. split; [exact Hl|]. split; [exact Hheap|exact Hd].
Defined.

(** C3 as the specification words it fails: the two entries below agree
    on language and part of speech, the entry before has no form, and the
    conjugation is extracted again instead of being reused. *)
Lemma conj_reuse_counterexample :
  let s := two_entries_no_forms in
  let s' := snd (process_conj_template sample_wxr conj_template s) in
  last_two (page_data s) = Some (fr_verb 0%nat, fr_verb 1%nat)
  /\ lang_code (fr_verb 0%nat) = lang_code (fr_verb 1%nat)
  /\ pos (fr_verb 0%nat) = pos (fr_verb 1%nat)
  /\ conjugation_calls s' = [CONJ_AIMER]
  /\ deref (heap s') 0%nat = []
  /\ deref (heap s') 1%nat = [mkForm (lit "aimons") [] CONJ_AIMER].
Proof. repeat split; vm_compute; reflexivity. Qed.

(** ** Tags in parentheses split over fragments *)

Lemma last_nonempty {X} (l : list X) : l <> [] -> exists x, last l = Some x.
Proof.
  induction l as [|x [|y l'] IH]; intros H; [congruence|eauto|].
  destruct IH as [z Hz]; [discriminate|]. exists z. exact Hz.
Qed.

Lemma linkage_child_after_word wxr lt linkage_data pending_tag index child s :
  page_data s <> [] ->
  word_set linkage_data = true ->
  index <> 0%nat ->
  linkage_child wxr lt (linkage_data, pending_tag) (index, child) s
  = (let tag_text := fragment_text wxr child in
     if opens_paren tag_text then ret (linkage_data, tag_text)
     else if closes_paren tag_text then
       ret (apply_tag_text wxr (pending_tag ++ tag_text) linkage_data, [])
     else if is_separator tag_text then
       append_linkage lt linkage_data ;; ret (new_linkage, pending_tag)
     else if nonempty pending_tag then
       ret (linkage_data, pending_tag ++ tag_text)
     else ret (apply_tag_text wxr tag_text linkage_data, pending_tag)) s.
Proof.
  intros Hpd Hw Hi. unfold linkage_child. rewrite Hw.
  apply Nat.eqb_neq in Hi. rewrite Hi. cbn [negb orb].
  destruct (last_nonempty _ Hpd) as [e He].
  destruct child as [t|n|l]; cbn [fragment_text].
  - reflexivity.
  - unfold bind at 1. unfold bind at 1. unfold last_entry at 1.
    rewrite He. reflexivity.
  - unfold bind at 1. unfold bind at 1. unfold last_entry at 1.
    rewrite He. reflexivity.
Qed.

Lemma opens_paren_nonempty t : opens_paren t = true -> nonempty t = true.
Proof. destruct t; [discriminate|reflexivity]. Qed.

Lemma closes_not_opens t : closes_paren t = true -> opens_paren t = false.
Proof.
  unfold closes_paren, opens_paren.
  destruct (startswith (strip t) [LPAREN]); [discriminate|reflexivity].
Qed.

Lemma nonempty_app_l (p t : pystr) : nonempty p = true -> nonempty (p ++ t) = true.
Proof. destruct p; [discriminate|reflexivity]. Qed.

Lemma pending_run wxr lt linkage_data mids cl s :
  page_data s <> [] ->
  word_set linkage_data = true ->
  Forall (fun ic => plain_fragment (fragment_text wxr (snd ic)) = true) mids ->
  closes_paren (fragment_text wxr (snd cl)) = true ->
  Forall (fun ic => fst ic <> 0%nat) (mids ++ [cl]) ->
  forall pending_tag,
    nonempty pending_tag = true ->
    for_fold (linkage_child wxr lt) (mids ++ [cl]) (linkage_data, pending_tag) s
    = (Ok (apply_tag_text wxr
             (pending_tag
                ++ concat (map (fun ic => fragment_text wxr (snd ic)) mids)
                ++ fragment_text wxr (snd cl))
             linkage_data, []), s).
Proof.
  intros Hpd Hw Hmids Hcl Hidx.
  induction mids as [|[i c] mids IH]; intros pending_tag Hp.
  - destruct cl as [i c]. cbn [app for_fold map concat snd] in *.
    apply Forall_cons in Hidx as [Hi _]. cbn [fst] in Hi.
    unfold bind. rewrite linkage_child_after_word by assumption.
    cbv zeta. rewrite (closes_not_opens _ Hcl), Hcl. reflexivity.
  - cbn [app for_fold map concat snd] in *.
    apply Forall_cons in Hidx as [Hi Hidx]. cbn [fst] in Hi.
    apply Forall_cons in Hmids as [Hc Hmids]. cbn [snd] in Hc.
    unfold plain_fragment in Hc.
    apply andb_true_iff in Hc as [Ho Hc].
    apply andb_true_iff in Hc as [Hc Hsep].
    apply negb_true_iff in Ho, Hc, Hsep.
    unfold bind at 1. rewrite linkage_child_after_word by assumption.
    cbv zeta. rewrite Ho, Hc, Hsep, Hp. unfold ret at 1.
    rewrite (IH Hmids Hidx) by (apply nonempty_app_l, Hp).
    rewrite <- !app_assoc. reflexivity.
Qed.

(** C4, as the code has it.  After the word of a list item, a fragment
    whose stripped text starts with an opening parenthesis and does not end
    with a closing one is kept as the pending tag and adds no tag.  When
    the fragments after it neither open nor close such a parenthesis and
    are no separators, and a fragment follows whose stripped text ends with
    a closing parenthesis without starting with an opening one, then the
    pending text, these fragments and the closing fragment are processed,
    concatenated, as one tag text, and the pending tag is empty again. *)
Theorem pending_tag_accumulates
    (wxr : WiktextractContext) (lt : option LinkageField)
    (linkage_data : Linkage) (pending_tag : pystr)
    (op cl : nat * GeneralNode) (mids : list (nat * GeneralNode))
    (s : State) :
  page_data s <> [] ->
  word_set linkage_data = true ->
  opens_paren (fragment_text wxr (snd op)) = true ->
  Forall (fun ic => plain_fragment (fragment_text wxr (snd ic)) = true) mids ->
  closes_paren (fragment_text wxr (snd cl)) = true ->
  Forall (fun ic => fst ic <> 0%nat) (op :: mids ++ [cl]) ->
  for_fold (linkage_child wxr lt) [op] (linkage_data, pending_tag) s
  = (Ok (linkage_data, fragment_text wxr (snd op)), s)
  /\ for_fold (linkage_child wxr lt) (op :: mids ++ [cl])
       (linkage_data, pending_tag) s
     = (Ok (apply_tag_text wxr
              (fragment_text wxr (snd op)
                 ++ concat (map (fun ic => fragment_text wxr (snd ic)) mids)
                 ++ fragment_text wxr (snd cl))
              linkage_data, []), s).
Proof.
  intros Hpd Hw Hop Hmids Hcl Hidx.
  apply Forall_cons in Hidx as [Hi Hidx]. destruct op as [i c].
  cbn [fst snd] in *.
  split.
  - cbn [for_fold]. unfold bind.
    rewrite linkage_child_after_word by assumption.
    cbv zeta. rewrite Hop. reflexivity.
  - cbn [for_fold]. unfold bind at 1.
    rewrite linkage_child_after_word by assumption.
    cbv zeta. rewrite Hop. unfold ret at 1.
    apply pending_run; try assumption.
    apply opens_paren_nonempty, Hop.
Qed.

(** C4, a run of the theorem: the fragments [ (a], [ b ] and [c)] after the
    word make the one tag text [ (a b c)]. *)
Lemma pending_tag_accumulates_witness :
  for_fold (linkage_child sample_wxr (Some Synonyms)) split_fragments
    (mot, []) one_entry
  = (Ok (with_linkage_tags [lit " (a b c)"] mot, []), one_entry).
Proof.
  destruct (pending_tag_accumulates sample_wxr (Some Synonyms) mot []
              (1%nat, GStr (lit " (a")) (3%nat, GStr (lit "c)"))
              [(2%nat, GStr (lit " b "))] one_entry) as [_ H].
  - discriminate.
  - reflexivity.
  - reflexivity.
  - repeat constructor.
  - reflexivity.
  - repeat constructor; discriminate.
  - exact H.
Defined.

(** C4 as the specification words it fails: not every fragment that
    follows is added to the pending tag.  Of the fragments [(a], [(b] and
    [c)], the second replaces the pending text instead of extending it, and
    the tag text processed at the end is [(bc)], not [(a(bc)]. *)
Lemma pending_tag_counterexample :
  opens_paren (lit "(a") = true
  /\ closes_paren (lit "c)") = true
  /\ for_fold (linkage_child sample_wxr (Some Synonyms)) reopened_fragments
       (mot, []) one_entry
     = (Ok (apply_tag_text sample_wxr (lit "(bc)") mot, []), one_entry)
  /\ for_fold (linkage_child sample_wxr (Some Synonyms)) reopened_fragments
       (mot, []) one_entry
     <> (Ok (apply_tag_text sample_wxr (lit "(a(bc)") mot, []), one_entry).
Proof.
  split; [reflexivity|]. split; [reflexivity|].
  split; [vm_compute; reflexivity|].
  vm_compute. discriminate.
Qed.

(** ** Digits and the index pattern *)




Lemma lparen_not_space : isspace LPAREN = false.
Proof. reflexivity. Qed.

Lemma lparen_not_decimal : isdecimal_char LPAREN = false.
Proof. reflexivity. Qed.








Lemma span_by_spec f s :
  s = fst (span_by f s) ++ snd (span_by f s)
  /\ forallb f (fst (span_by f s)) = true.
Proof.
  induction s as [|c s [IH1 IH2]]; cbn [span_by]; [split; reflexivity|].
  destruct (f c) eqn:E; [|split; reflexivity].
  destruct (span_by f s) as [a b]. cbn [fst snd app forallb] in *.
  rewrite E. split; [congruence|assumption].
Qed.



Lemma lstrip_by_split f s :
  exists w, s = w ++ lstrip_by f s /\ forallb f w = true.
Proof.
  induction s as [|c s (w & E & Hw)]; cbn [lstrip_by].
  - exists []. split; reflexivity.
  - destruct (f c) eqn:Hc.
    + exists (c :: w). cbn [app forallb]. rewrite Hc. split; [congruence|exact Hw].
    + exists []. split; reflexivity.
Qed.

Lemma startswith_app s p : startswith s p = true -> s = p ++ drop (length p) s.
Proof.
  revert s. induction p as [|c p IH]; intros s H; [reflexivity|].
  destruct s as [|d s]; [discriminate|]. cbn [startswith] in H.
  destruct (N.eqb c d) eqn:E; [|discriminate].
  apply N.eqb_eq in E. subst. cbn [length drop app]. f_equal. apply IH, H.
Qed.


Lemma forallb_not_In (f : N -> bool) l x :
  forallb f l = true -> f x = false -> ~ In x l.
Proof.
  intros Hl Hx Hin. rewrite forallb_forall in Hl.
  rewrite (Hl x Hin) in Hx. discriminate.
Qed.

Lemma index_match_paren_some s ds rest :
  index_match_paren s = Some (ds, rest) ->
  isdecimal ds = true
  /\ exists s1, s = LPAREN :: s1 /\ ~ In LPAREN s1.
Proof.
  unfold index_match_paren. destruct s as [|c s1]; [discriminate|].
  destruct (N.eqb c LPAREN) eqn:Ec; [|discriminate].
  apply N.eqb_eq in Ec. subst c.
  set (s2 := if startswith s1 (lit "sens")
             then lstrip_by isspace (drop 4 s1) else s1).
  destruct (span_by_spec isdecimal_char s2) as [Hs2 Hds].
  destruct (span_by isdecimal_char s2) as [ds' s3]. cbn [fst snd] in *.
  intros H.
  assert (Hshape : ds' = ds /\ ds <> []
                   /\ (s3 = [RPAREN] \/ s3 = [RPAREN; NEWLINE])).
  { destruct ds' as [|d0 ds0]; [destruct s3 as [|? [|? [|? ?]]]; discriminate|].
    destruct s3 as [|d [|e [|? ?]]]; try discriminate.
    - destruct (N.eqb d RPAREN) eqn:Ed; [|discriminate].
      apply N.eqb_eq in Ed. injection H as <- <-. subst.
      split; [reflexivity|]. split; [discriminate|]. left. reflexivity.
    - destruct (N.eqb d RPAREN && N.eqb e NEWLINE) eqn:Ed; [|discriminate].
      apply andb_true_iff in Ed as [Ed Ee].
      apply N.eqb_eq in Ed, Ee. injection H as <- <-. subst.
      split; [reflexivity|]. split; [discriminate|]. right. reflexivity. }
  destruct Hshape as (-> & Hne & Hs3).
  split.
  { unfold isdecimal. rewrite Hds. destruct ds; [congruence|reflexivity]. }
  exists s1. split; [reflexivity|].
  assert (Hno2 : ~ In LPAREN s2).
  { rewrite Hs2. intros Hin. apply in_app_or in Hin as [Hin|Hin].
    - revert Hin. apply (forallb_not_In isdecimal_char); [exact Hds|reflexivity].
    - destruct Hs3 as [-> | ->]; cbn in Hin;
        repeat (destruct Hin as [Hin|Hin]; [discriminate|]); exact Hin. }
  subst s2. destruct (startswith s1 (lit "sens")) eqn:Hsens; [|exact Hno2].
  apply startswith_app in Hsens. rewrite Hsens.
  change (length (lit "sens")) with 4%nat.
  destruct (lstrip_by_split isspace (drop 4 s1)) as (w & Ew & Hw).
  rewrite Ew. intros Hin.
  apply in_app_or in Hin as [Hin|Hin].
  - cbn in Hin. repeat (destruct Hin as [Hin|Hin]; [discriminate|]). exact Hin.
  - apply in_app_or in Hin as [Hin|Hin]; [|exact (Hno2 Hin)].
    revert Hin. apply (forallb_not_In isspace); [exact Hw|reflexivity].
Qed.

Lemma index_match_here_some s ds rest :
  index_match_here s = Some (ds, rest) ->
  isdecimal ds = true
  /\ exists w s1, s = w ++ LPAREN :: s1
                  /\ forallb isspace w = true /\ ~ In LPAREN s1.
Proof.
  unfold index_match_here. intros H.
  apply index_match_paren_some in H as (Hd & s1 & E & Hno).
  split; [exact Hd|].
  destruct (lstrip_by_split isspace s) as (w & Ew & Hw).
  exists w, s1. rewrite <- E. auto.
Qed.

Lemma index_search_decimal s pre ds rest :
  index_search s = Some (pre, ds, rest) -> isdecimal ds = true.
Proof.
  revert pre. induction s as [|c s IH]; intros pre; cbn [index_search].
  - destruct (index_match_here []) as [[d r]|] eqn:E; [|discriminate].
    intros [= _ <- _]. apply index_match_here_some in E as [H _]. exact H.
  - destruct (index_match_here (c :: s)) as [[d r]|] eqn:E.
    + intros [= _ <- _]. apply index_match_here_some in E as [H _]. exact H.
    + destruct (index_search s) as [[[p d] r]|]; [|discriminate].
      intros [= _ <- <-]. eapply IH. reflexivity.
Qed.








(** ** Sense text and sense index *)



Lemma linkage_node_item wxr lt v n :
  andb (is_template n) (str_eqb (template_name n) [LPAREN]) = false ->
  andb (bool_decide (kind n = LIST_ITEM)) (str_eqb (sarg n) [SEMICOLON])
  = false ->
  linkage_node wxr lt v n
  = (r <- for_fold (linkage_child wxr lt)
            (enumerate (invert_find_child [LIST] n))
            (start_linkage (fst v) (snd v), []) ;;
     (if word_set (fst r) then append_linkage lt (fst r) else ret tt) ;;
     ret v).
Proof.
  intros H1 H2. destruct v as [sense_text sense_index].
  unfold linkage_node. rewrite H1, H2. reflexivity.
Qed.

Lemma start_linkage_sense text index :
  sense (start_linkage text index) = text
  /\ sense_index (start_linkage text index) = index
  /\ word (start_linkage text index) = None.
Proof.
  unfold start_linkage.
  destruct text as [|c text]; cbn [nonempty];
    destruct (Z.eqb index 0) eqn:E; cbn [negb];
    try (apply Z.eqb_eq in E; subst index); repeat split; reflexivity.
Qed.

(** ** Pronunciation in the form line *)

Lemma form_line_node_pron wxr pre node :
  is_template node = true ->
  str_in (template_name node) (PRON_TEMPLATES wxr) = true ->
  form_line_node wxr pre (GNode node)
  = ((let ipa_text := process_pron_template wxr node in
      if nonempty ipa_text then append_sound (mkSound ipa_text [] [])
      else ret tt) ;;
     ret (template_name node)).
Proof. intros Ht Hp. unfold form_line_node. rewrite Ht, Hp. reflexivity. Qed.

Lemma form_line_node_default wxr pre node :
  is_template node = true ->
  default_branch wxr (template_name node) = true ->
  form_line_node wxr pre (GNode node)
  = (form_line_tag wxr pre node ;; ret (template_name node)).
Proof.
  intros Ht Hd. unfold default_branch in Hd.
  repeat (apply andb_true_iff in Hd as [?H Hd]).
  repeat match goal with
         | H : negb _ = true |- _ => apply negb_true_iff in H
         end.
  unfold form_line_node. rewrite Ht.
  repeat match goal with
         | H : _ = false |- _ => rewrite H; clear H
         end.
  reflexivity.
Qed.

Lemma append_last_sound_tag_ok t s e :
  last (page_data s) = Some e -> sounds e <> [] ->
  append_last_sound_tag t s = (Ok tt, with_sound_tag t s).
Proof.
  intros He Hs. unfold append_last_sound_tag, bind, last_entry.
  rewrite He. destruct (last_nonempty _ Hs) as [x Hx]. rewrite Hx.
  rewrite (modify_last_ok _ _ e He). reflexivity.
Qed.

(** ** Runs that return *)

Lemma map_last_nonempty {X} (f : X -> X) (l : list X) :
  l <> [] -> map_last f l <> [].
Proof.
  intros H E. apply (f_equal length) in E. rewrite length_map_last in E.
  destruct l; [congruence|discriminate].
Qed.

















Section Safe.
Context (wxr : WiktextractContext).















End Safe.




(** The guard [isdigit] of the table-start template lets through digits
    that [int] refuses: with the superscript two as parameter 2, the
    section raises [ValueError], while with [2] it returns. *)
Lemma superscript_index_raises :
  isdigit [178] = true
  /\ fst (extract_linkage sample_wxr (table_section [178]) (lit "synonymes")
            one_entry) = Raise ValueError
  /\ fst (extract_linkage sample_wxr (table_section (lit "2")) (lit "synonymes")
            one_entry) = Ok tt.
Proof. repeat split; vm_compute; reflexivity. Qed.

(** ** What the extractors leave alone *)

Lemma map_last_snoc {X} (f : X -> X) pre x :
  map_last f (pre ++ [x]) = pre ++ [f x].
Proof.
  induction pre as [|y pre IH]; [reflexivity|].
  destruct pre as [|z pre]; [reflexivity|].
  change (map_last f ((y :: z :: pre) ++ [x]))
    with (y :: map_last f ((z :: pre) ++ [x])).
  rewrite IH. reflexivity.
Qed.

Lemma last_two_snoc {X} (pre : list X) c :
  last_two (pre ++ [c]) = (fun p => (p, c)) <$> last pre.
Proof.
  induction pre as [|x [|y pre] IH]; try reflexivity.
  change (last (x :: y :: pre)) with (last (y :: pre)).
  rewrite <- IH.
  change ((x :: y :: pre) ++ [c]) with (x :: y :: (pre ++ [c])).
  change ((y :: pre) ++ [c]) with (y :: (pre ++ [c])).
  destruct (pre ++ [c]) eqn:E; [destruct pre; discriminate|reflexivity].
Qed.

Lemma frame_refl s : frame s s.
Proof.
  intros pre cur E. exists cur. split; [exact E|]. split; [left; reflexivity|].
  reflexivity.
Qed.

Lemma frame_trans s1 s2 s3 : frame s1 s2 -> frame s2 s3 -> frame s1 s3.
Proof.
  intros H12 H23 pre cur E.
  destruct (H12 pre cur E) as (c2 & E2 & F2 & K2).
  destruct (H23 pre c2 E2) as (c3 & E3 & F3 & K3).
  exists c3. split; [exact E3|]. split.
  - destruct F3 as [F3|F3]; [rewrite F3; exact F2|right; exact F3].
  - intros l Hl Hp. rewrite K3.
    + apply K2; assumption.
    + destruct F2 as [->|(p & Hlast & ->)]; [exact Hl|apply Hp, Hlast].
    + exact Hp.
Qed.

Lemma frame_strict_frame s s' : frame_strict s s' -> frame s s'.
Proof.
  intros [Hh Hp] pre cur E. destruct (Hp pre cur E) as (c & Ec & Fc).
  exists c. split; [exact Ec|]. split; [left; exact Fc|].
  intros. rewrite Hh. reflexivity.
Qed.

Lemma frame_strict_refl s : frame_strict s s.
Proof. split; [reflexivity|]. intros pre cur E. exists cur. auto. Qed.


Lemma strict_modify_last g :
  (forall e, forms (g e) = forms e) ->
  preserves frame_strict (modify_last g).
Proof.
  intros Hg s. unfold modify_last, bind, last_entry.
  destruct (last (page_data s)) as [e|]; cbn [snd];
    [|apply frame_strict_refl].
  split; [reflexivity|]. intros pre cur E. cbn [page_data].
  rewrite E, map_last_snoc. exists (g cur). split; [reflexivity|apply Hg].
Qed.


Section Frames.
Context (wxr : WiktextractContext).






Lemma frame_of_strict {A} (m : M A) :
  preserves frame_strict m -> preserves frame m.
Proof. intros H s. apply frame_strict_frame, H. Qed.

Lemma frame_extend_forms xs : preserves frame (extend_forms xs).
Proof.
  intros s. unfold extend_forms, bind, last_entry.
  destruct (last (page_data s)) as [e|] eqn:He; cbn [snd]; [|apply frame_refl].
  intros pre cur E. cbn [page_data heap].
  rewrite E, last_snoc in He. injection He as <-.
  exists cur. split; [exact E|]. split; [left; reflexivity|].
  intros l Hl _. apply lookup_insert_ne. congruence.
Qed.

Lemma frame_call_extract_conjugation title :
  preserves frame (call_extract_conjugation wxr title).
Proof.
  intros s. destruct (last (page_data s)) as [e|] eqn:He.
  - rewrite (call_extract_conjugation_ok _ _ _ e He). cbn [snd].
    intros pre cur E. cbn [page_data heap].
    assert (e = cur) as -> by (rewrite E, last_snoc in He; congruence).
    exists cur. split; [exact E|]. split; [left; reflexivity|].
    intros l Hl _. apply lookup_insert_ne. congruence.
  - unfold call_extract_conjugation, bind, last_entry. rewrite He.
    apply frame_refl.
Qed.

Local Ltac frame_step :=
  first
    [ apply preserves_ret, frame_refl
    | apply preserves_raise, frame_refl
    | apply preserves_last_entry, frame_refl
    | apply frame_extend_forms
    | apply frame_of_strict, strict_modify_last; intros ?; reflexivity
    | apply preserves_bind; [apply frame_trans| |intros ?]
    | apply preserves_if
    | apply preserves_for_fold; [apply frame_refl|apply frame_trans|intros ? ?]
    | apply preserves_for_each; [apply frame_refl|apply frame_trans|intros ?] ].

Lemma frame_conj_link link : preserves frame (conj_link wxr link).
Proof.
  unfold conj_link.
  destruct (largs link) as [|[|[t|n|l] r0] r1];
    try (apply preserves_ret, frame_refl);
    try (apply preserves_raise, frame_refl).
  destruct (negb (startswith t (lit "Conjugaison:"))); [frame_step|].
  cbv zeta. destruct (str_in (split1_last SLASH t) group_names); [frame_step|].
  intros s. destruct (same_conjugation t s) as [l|] eqn:Hsame.
  - apply same_conjugation_some in Hsame as (prev & c & H2 & _ & ->).
    assert (Hc : last (page_data s) = Some c) by (eapply last_two_last, H2).
    rewrite (assign_forms_ok _ _ _ c Hc). cbn [snd].
    intros pre cur E.
    rewrite E in H2. rewrite last_two_snoc in H2.
    destruct (last pre) as [p|] eqn:Hp; [|discriminate].
    injection H2 as <- <-.
    destruct (validate_assignment wxr); cbn [page_data heap].
    + exists cur. split; [exact E|]. split; [left; reflexivity|].
      intros l Hl _. apply lookup_insert_ne. congruence.
    + exists (with_forms (forms p) cur). rewrite E, map_last_snoc.
      split; [reflexivity|]. split; [right; exists p; auto|]. reflexivity.
  - apply frame_call_extract_conjugation.
Qed.

Lemma frame_ja_mot_loop existing spans :
  preserves frame (ja_mot_loop wxr existing spans).
Proof.
  induction spans as [|[index node] rest IH]; cbn [ja_mot_loop].
  - frame_step.
  - destruct (Nat.eqb index 1); [|exact IH].
    cbv zeta. unfold append_form. repeat frame_step.
Qed.

Lemma frame_form_line_node pre c : preserves frame (form_line_node wxr pre c).
Proof.
  unfold form_line_node. destruct c as [t|node|l]; [frame_step| |frame_step].
  unfold process_equiv_pour_template, equiv_pour_child,
    process_zh_mot_template, zh_mot_child, process_ja_mot_template,
    last_forms, process_conj_template, form_line_tag,
    append_last_sound_tag, append_form, append_sound, append_tag.
  repeat frame_step.
  - intros s. apply frame_refl.
  - apply frame_ja_mot_loop.
  - apply frame_conj_link.
  - destruct (last (sounds _)); frame_step.
Qed.

(** X15.  [extract_form_line] leaves the entries before the last as they are,
    and every list of forms that belongs to neither of the last two
    entries; the list of the entry before the last is the only thing
    outside the last entry that it can change. *)
Theorem extract_form_line_frame nodes s pre cur :
  page_data s = pre ++ [cur] ->
  let s' := snd (extract_form_line wxr nodes s) in
  (exists cur', page_data s' = pre ++ [cur'])
  /\ forall l,
       l <> forms cur ->
       (forall p, last pre = Some p -> l <> forms p) ->
       heap s' !! l = heap s !! l.
Proof.
  intros E s'.
  assert (H : preserves frame (extract_form_line wxr nodes)).
  { unfold extract_form_line.
    apply preserves_bind; [apply frame_trans| |intros; frame_step].
    apply preserves_for_fold; [apply frame_refl|apply frame_trans|].
    intros; apply frame_form_line_node. }
  destruct (H s pre cur E) as (c & Ec & _ & Hh).
  split; [exists c; exact Ec|exact Hh].
Qed.

End Frames.

(** ** The forms of the entries before the last *)







Section LastOnly.
Context (wxr : WiktextractContext).
Hypothesis Hcopy : validate_assignment wxr = true.






End LastOnly.





(** * Further properties of the extractors *)

(** ** The word of a list item *)

Lemma linkage_template_word wxr node linkage_data :
  word_set (process_linkage_template wxr node linkage_data)
  = orb (link_template_name (template_name node)) (word_set linkage_data).
Proof.
  unfold process_linkage_template, link_template_name.
  destruct (str_eqb (template_name node) (lit "lien")).
  - unfold process_lien_template. cbv zeta.
    destruct (dict_has (KStr (lit "tr")) _), (dict_has (KStr (lit "sens")) _);
      reflexivity.
  - destruct (startswith (template_name node) (lit "zh-lien")); [|reflexivity].
    unfold process_zh_lien_template. cbv zeta.
    destruct (nonempty _); reflexivity.
Qed.

Lemma linkage_template_unknown wxr node linkage_data :
  link_template_name (template_name node) = false ->
  process_linkage_template wxr node linkage_data = linkage_data.
Proof.
  unfold link_template_name, process_linkage_template. intros H.
  apply orb_false_iff in H as [-> ->]. reflexivity.
Qed.

Lemma linkage_node_of_item wxr lt v n :
  linkage_item n = true ->
  linkage_node wxr lt v n
  = (r <- for_fold (linkage_child wxr lt)
            (enumerate (invert_find_child [LIST] n))
            (start_linkage (fst v) (snd v), []) ;;
     (if word_set (fst r) then append_linkage lt (fst r) else ret tt) ;;
     ret v).
Proof.
  unfold linkage_item. intros H. apply andb_true_iff in H as [H1 H2].
  apply negb_true_iff in H1, H2. apply linkage_node_item; assumption.
Qed.

Lemma append_linkage_ok f x s e :
  last (page_data s) = Some e ->
  append_linkage (Some f) x s = (Ok tt, with_linkage f x s).
Proof.
  intros He. unfold append_linkage, bind, last_entry. rewrite He.
  rewrite (modify_last_ok _ _ e He). reflexivity.
Qed.

Lemma first_child_word wxr lt linkage_data pending_tag c s :
  not_template c = true ->
  linkage_child wxr lt (linkage_data, pending_tag) (0%nat, c) s
  = (Ok (with_word (clean_node wxr (Some c)) linkage_data, pending_tag), s).
Proof.
  intros Hc. unfold linkage_child. cbn [Nat.eqb orb].
  destruct c as [t|m|l]; try reflexivity.
  cbn [not_template] in Hc. apply negb_true_iff in Hc. rewrite Hc.
  reflexivity.
Qed.

Lemma wordless_child_word wxr lt linkage_data pending_tag i c s :
  word_set linkage_data = false ->
  not_template c = true ->
  linkage_child wxr lt (linkage_data, pending_tag) (i, c) s
  = (Ok (with_word (clean_node wxr (Some c)) linkage_data, pending_tag), s).
Proof.
  intros Hw Hc. unfold linkage_child. rewrite Hw, orb_true_r.
  destruct c as [t|m|l]; try reflexivity.
  cbn [not_template] in Hc. apply negb_true_iff in Hc. rewrite Hc.
  reflexivity.
Qed.

Lemma start_linkage_wordless text index :
  word_set (start_linkage text index) = false.
Proof.
  unfold word_set.
  destruct (start_linkage_sense text index) as (_ & _ & ->). reflexivity.
Qed.

(** X1.  Only [lien] and [zh-lien...] templates give a word.  A list item
    made of one other template appends nothing and changes nothing; when
    such a template is followed by a child that is no template, that child
    is the word of the record appended. *)
Theorem unknown_template_gives_no_word
    (wxr : WiktextractContext) (lt : option LinkageField)
    (text0 : pystr) (index0 : Z) (n t : WikiNode) (s : State) :
  linkage_item n = true ->
  is_template t = true ->
  link_template_name (template_name t) = false ->
  (forall node linkage_data,
     word_set (process_linkage_template wxr node linkage_data)
     = orb (link_template_name (template_name node)) (word_set linkage_data))
  /\ (invert_find_child [LIST] n = [GNode t] ->
      linkage_node wxr lt (text0, index0) n s = (Ok (text0, index0), s))
  /\ (forall c f e,
        invert_find_child [LIST] n = [GNode t; c] ->
        not_template c = true ->
        lt = Some f ->
        last (page_data s) = Some e ->
        linkage_node wxr lt (text0, index0) n s
        = (Ok (text0, index0),
           with_linkage f
             (with_word (clean_node wxr (Some c)) (start_linkage text0 index0))
             s)).
Proof.
  intros Hitem Ht Hname. split; [|split].
  - apply linkage_template_word.
  - intros Hch. rewrite linkage_node_of_item by assumption.
    rewrite Hch. cbn [enumerate imap for_fold fst snd].
    unfold linkage_child. cbn [Nat.eqb orb]. rewrite Ht.
    rewrite linkage_template_unknown by assumption.
    unfold bind, ret. cbn [fst]. rewrite start_linkage_wordless. reflexivity.
  - intros c f e Hch Hc -> He. rewrite linkage_node_of_item by assumption.
    rewrite Hch. cbn [enumerate imap for_fold fst snd].
    unfold bind at 1. unfold bind at 1.
    unfold linkage_child at 1. cbn [Nat.eqb orb]. rewrite Ht.
    rewrite linkage_template_unknown by assumption. unfold ret at 1.
    unfold bind at 1. cbn [compose].
    rewrite wordless_child_word
      by (try apply start_linkage_wordless; assumption).
    unfold ret at 1. cbn [fst]. cbn [word_set with_word word].
    unfold bind. rewrite (append_linkage_ok _ _ _ e He). reflexivity.
Qed.

(** X1 on the item [* {{inconnu}} mot] in a section of synonyms: the
    record appended has the word [mot]. *)
Lemma unknown_template_gives_no_word_witness :
  linkage_node sample_wxr (Some Synonyms) ([], 0%Z) unknown_then_word one_entry
  = (Ok ([], 0%Z), with_linkage Synonyms mot one_entry).
Proof.
  destruct (unknown_template_gives_no_word sample_wxr (Some Synonyms) [] 0%Z
              unknown_then_word unknown_template one_entry
              eq_refl eq_refl eq_refl) as (_ & _ & H).
  exact (H (GStr (lit "mot")) Synonyms (fr_verb 0%nat)
           eq_refl eq_refl eq_refl eq_refl).
Defined.

(** ** Several words in one list item *)

Lemma separator_not_paren t :
  is_separator t = true -> opens_paren t = false /\ closes_paren t = false.
Proof.
  unfold is_separator, opens_paren, closes_paren. intros H.
  apply str_in_true in H. cbn [In] in H.
  destruct H as [<-|[<-|[]]]; split; reflexivity.
Qed.

(** X2.  A list item made of a word, a separator [,] or [/] and a second
    word appends two records, in this order.  The first carries the sense
    text and the sense index of the section; the second starts from an
    empty record and has neither. *)
Theorem separator_splits_item
    (wxr : WiktextractContext) (f : LinkageField)
    (text0 : pystr) (index0 : Z) (n : WikiNode) (w1 sep w2 : GeneralNode)
    (s : State) (e : WordEntry) :
  linkage_item n = true ->
  invert_find_child [LIST] n = [w1; sep; w2] ->
  not_template w1 = true ->
  not_template w2 = true ->
  is_separator (fragment_text wxr sep) = true ->
  last (page_data s) = Some e ->
  let first :=
    with_word (clean_node wxr (Some w1)) (start_linkage text0 index0) in
  let second := with_word (clean_node wxr (Some w2)) new_linkage in
  linkage_node wxr (Some f) (text0, index0) n s
  = (Ok (text0, index0), with_linkage f second (with_linkage f first s))
  /\ sense first = text0 /\ sense_index first = index0
  /\ sense second = [] /\ sense_index second = 0%Z.
Proof.
  intros Hitem Hch H1 H2 Hsep He first second.
  destruct (start_linkage_sense text0 index0) as (Hs & Hi & _).
  split; [|repeat split; assumption].
  destruct (separator_not_paren _ Hsep) as [Ho Hc].
  assert (Hpd : page_data s <> []).
  { intros E. rewrite E in He. discriminate. }
  rewrite linkage_node_of_item by assumption.
  rewrite Hch. cbn [enumerate imap for_fold fst snd compose].
  unfold bind at 1. unfold bind at 1.
  rewrite first_child_word by assumption. fold first.
  unfold bind at 1.
  rewrite linkage_child_after_word by (try discriminate; auto).
  cbv zeta. rewrite Ho, Hc, Hsep.
  unfold bind at 1. rewrite (append_linkage_ok _ _ _ e He). unfold ret at 1.
  unfold bind at 1.
  rewrite wordless_child_word by (auto; reflexivity). fold second.
  unfold ret at 1. cbn [fst]. cbn [word_set with_word word second].
  unfold bind.
  assert (He' : last (page_data (with_linkage f first s))
                = Some (linkage_append f first e)).
  { cbn [with_linkage page_data]. rewrite last_map_last, He. reflexivity. }
  rewrite (append_linkage_ok _ _ _ _ He'). reflexivity.
Qed.

(** X2 on the item [* [[a]], [[b]]]. *)
Lemma separator_splits_item_witness :
  linkage_node sample_wxr (Some Synonyms) (lit "sens", 3%Z)
    two_words_item one_entry
  = (Ok (lit "sens", 3%Z),
     with_linkage Synonyms (with_word (lit "b") new_linkage)
       (with_linkage Synonyms
          (with_word (lit "a") (start_linkage (lit "sens") 3%Z)) one_entry)).
Proof.
  destruct (separator_splits_item sample_wxr Synonyms (lit "sens") 3%Z
              two_words_item (GNode (link_text (lit "a"))) (GStr (lit ", "))
              (GNode (link_text (lit "b"))) one_entry (fr_verb 0%nat)
              eq_refl eq_refl eq_refl eq_refl eq_refl eq_refl) as [H _].
  exact H.
Defined.

(** ** A parenthesis that is never closed *)

Lemma imap_indexed_Forall {X} (P : X -> Prop) (g : nat -> nat) (l : list X) :
  Forall P l ->
  (forall i, g i <> 0%nat) ->
  Forall (fun ic => fst ic <> 0%nat /\ P (snd ic))
         (imap (fun i x => (g i, x)) l).
Proof.
  intros Hl. revert g. induction Hl as [|x l Hx Hl IH]; intros g Hg.
  - constructor.
  - cbn [imap]. constructor; [split; [apply Hg|exact Hx]|].
    apply (IH (fun i => g (S i))). intros i. apply Hg.
Qed.

Lemma plain_run wxr lt linkage_data (mids : list (nat * GeneralNode)) s :
  page_data s <> [] ->
  word_set linkage_data = true ->
  Forall (fun ic => fst ic <> 0%nat
                    /\ plain_fragment (fragment_text wxr (snd ic)) = true)
         mids ->
  forall pending_tag,
    nonempty pending_tag = true ->
    exists pending_tag',
      for_fold (linkage_child wxr lt) mids (linkage_data, pending_tag) s
      = (Ok (linkage_data, pending_tag'), s).
Proof.
  intros Hpd Hw Hmids.
  induction Hmids as [|[i c] mids [Hi Hc] _ IH]; intros pending_tag Hp.
  - exists pending_tag. reflexivity.
  - cbn [fst snd] in *. unfold plain_fragment in Hc.
    apply andb_true_iff in Hc as [Ho Hc].
    apply andb_true_iff in Hc as [Hc Hsep].
    apply negb_true_iff in Ho, Hc, Hsep.
    destruct (IH (pending_tag ++ fragment_text wxr c)) as [p' Hrun].
    { apply nonempty_app_l, Hp. }
    exists p'. cbn [for_fold]. unfold bind at 1.
    rewrite linkage_child_after_word by assumption.
    cbv zeta. rewrite Ho, Hc, Hsep, Hp. unfold ret at 1. exact Hrun.
Qed.

(** X3.  A parenthesis that is opened after the word of a list item and
    never closed is lost: when a fragment opens one and the fragments after
    it neither open nor close one and are no separators, the record
    appended for the item is the word alone, as if the item had ended at
    the word. *)
Theorem unclosed_parenthesis_is_dropped
    (wxr : WiktextractContext) (f : LinkageField)
    (text0 : pystr) (index0 : Z) (n : WikiNode) (w op : GeneralNode)
    (mids : list GeneralNode) (s : State) (e : WordEntry) :
  linkage_item n = true ->
  invert_find_child [LIST] n = w :: op :: mids ->
  not_template w = true ->
  opens_paren (fragment_text wxr op) = true ->
  Forall (fun c => plain_fragment (fragment_text wxr c) = true) mids ->
  last (page_data s) = Some e ->
  linkage_node wxr (Some f) (text0, index0) n s
  = (Ok (text0, index0),
     with_linkage f
       (with_word (clean_node wxr (Some w)) (start_linkage text0 index0)) s).
Proof.
  intros Hitem Hch Hw Hop Hmids He.
  assert (Hpd : page_data s <> []).
  { intros E. rewrite E in He. discriminate. }
  rewrite linkage_node_of_item by assumption.
  rewrite Hch. cbn [enumerate imap for_fold fst snd compose].
  unfold bind at 1. unfold bind at 1.
  rewrite first_child_word by assumption.
  set (x := with_word (clean_node wxr (Some w)) (start_linkage text0 index0)).
  unfold bind at 1.
  rewrite linkage_child_after_word by (try discriminate; auto).
  cbv zeta. rewrite Hop. unfold ret at 1.
  destruct (plain_run wxr (Some f) x
              (imap (fun i c => (S (S i), c)) mids) s Hpd eq_refl
              (imap_indexed_Forall _ (fun i => S (S i)) mids Hmids
                 (fun i => Nat.neq_succ_0 _))
              (fragment_text wxr op) (opens_paren_nonempty _ Hop))
    as [p' Hrun].
  change (imap ((fun (i : nat) (x0 : GeneralNode) => (i, x0)) ∘ S ∘ S) mids)
    with (imap (fun i c => (S (S i), c)) mids).
  rewrite Hrun. cbn [fst]. cbn [word_set with_word word x].
  unfold bind. rewrite (append_linkage_ok _ _ _ e He). reflexivity.
Qed.

(** X3 on the item [* [[mot]] (rare, vieilli]: the record has no tag. *)
Lemma unclosed_parenthesis_is_dropped_witness :
  linkage_node sample_wxr (Some Synonyms) ([], 0%Z) unclosed_item one_entry
  = (Ok ([], 0%Z), with_linkage Synonyms mot one_entry).
Proof.
  refine (unclosed_parenthesis_is_dropped sample_wxr Synonyms [] 0%Z
            unclosed_item (GNode (link_text (lit "mot")))
            (GStr (lit " (rare")) [GStr (lit " vieilli")] one_entry
            (fr_verb 0%nat) eq_refl eq_refl eq_refl eq_refl _ eq_refl).
  repeat constructor.
Defined.

(** ** Tags and translation of a record *)

Lemma apply_tags_spec (tags : list pystr) :
  forall linkage_data,
    let r := fold_left apply_tag tags linkage_data in
    linkage_tags r = linkage_tags linkage_data ++ List.filter kept_tag tags
    /\ translation r
       = match last (List.filter is_translation_tag tags) with
         | Some t => removeprefix t dash_prefix
         | None => translation linkage_data
         end
    /\ word r = word linkage_data
    /\ roman r = roman linkage_data
    /\ alt r = alt linkage_data
    /\ sense r = sense linkage_data
    /\ sense_index r = sense_index linkage_data
    /\ linkage_lang r = linkage_lang linkage_data
    /\ linkage_lang_code r = linkage_lang_code linkage_data.
Proof.
  induction tags as [|tag tags IH]; intros linkage_data.
  - cbn. rewrite app_nil_r. repeat split; reflexivity.
  - cbn [fold_left]. specialize (IH (apply_tag linkage_data tag)).
    cbv zeta in *. destruct IH as (Ht & Htr & Hw & Hr & Ha & Hs & Hi & Hl & Hc).
    rewrite Ht, Htr, Hw, Hr, Ha, Hs, Hi, Hl, Hc. clear.
    cbn [List.filter]. unfold kept_tag, is_translation_tag, apply_tag.
    destruct (startswith tag dash_prefix) eqn:Ed; cbn [negb andb].
    + split; [reflexivity|]. split; [|repeat split; reflexivity].
      destruct (List.filter _ tags) as [|t ts] eqn:Ef; [reflexivity|].
      change (last (tag :: t :: ts)) with (last (t :: ts)).
      destruct (last_nonempty (t :: ts)) as [z ->]; [discriminate|].
      reflexivity.
    + destruct (nonempty tag); cbn [linkage_tags with_linkage_tags];
        [rewrite <- app_assoc|]; repeat split; reflexivity.
Qed.

(** X4.  The tags that [split_tag_text] makes of a tag text are appended
    to the tags of the record in their order, except the empty ones and
    those that start with a dash and a blank; the last of these, without
    its dash, becomes the translation.  Nothing else of the record
    changes. *)
Theorem tag_text_appends_tags
    (wxr : WiktextractContext) (tag_text : pystr) (linkage_data : Linkage) :
  let tags := split_tag_text wxr tag_text in
  let r := apply_tag_text wxr tag_text linkage_data in
  linkage_tags r = linkage_tags linkage_data ++ List.filter kept_tag tags
  /\ translation r
     = match last (List.filter is_translation_tag tags) with
       | Some t => removeprefix t dash_prefix
       | None => translation linkage_data
       end
  /\ word r = word linkage_data
  /\ roman r = roman linkage_data
  /\ alt r = alt linkage_data
  /\ sense r = sense linkage_data
  /\ sense_index r = sense_index linkage_data.
Proof.
  intros tags r.
  destruct (apply_tags_spec tags linkage_data)
    as (Ht & Htr & Hw & Hr & Ha & Hs & Hi & _).
  repeat split; assumption.
Qed.

(** ** The list a section writes to *)

Section OnlyList.
Context (wxr : WiktextractContext) (F : option LinkageField).

Lemma entry_kept_refl e : entry_kept F e e.
Proof. repeat split; reflexivity. Qed.

Lemma entry_kept_trans e1 e2 e3 :
  entry_kept F e1 e2 -> entry_kept F e2 e3 -> entry_kept F e1 e3.
Proof.
  intros (A1 & B1 & C1 & D1 & E1 & G1) (A2 & B2 & C2 & D2 & E2 & G2).
  repeat split; try congruence.
  intros f Hf. rewrite G2, G1 by assumption. reflexivity.
Qed.

Lemma only_list_refl s : only_list F s s.
Proof.
  split; [reflexivity|]. split; [reflexivity|].
  intros pre cur E. exists cur. split; [exact E|apply entry_kept_refl].
Qed.

Lemma only_list_trans s1 s2 s3 :
  only_list F s1 s2 -> only_list F s2 s3 -> only_list F s1 s3.
Proof.
  intros (H1 & C1 & P1) (H2 & C2 & P2).
  split; [congruence|]. split; [congruence|].
  intros pre cur E. destruct (P1 pre cur E) as (c2 & E2 & K2).
  destruct (P2 pre c2 E2) as (c3 & E3 & K3).
  exists c3. split; [exact E3|]. eapply entry_kept_trans; eassumption.
Qed.

Lemma only_list_modify_last g :
  (forall e, entry_kept F e (g e)) -> preserves (only_list F) (modify_last g).
Proof.
  intros Hg s. unfold modify_last, bind, last_entry.
  destruct (last (page_data s)) as [e|]; cbn [snd]; [|apply only_list_refl].
  split; [reflexivity|]. split; [reflexivity|].
  intros pre cur E. cbn [page_data]. rewrite E, map_last_snoc.
  exists (g cur). split; [reflexivity|apply Hg].
Qed.

Lemma linkage_append_kept f x e :
  Some f = F -> entry_kept F e (linkage_append f x e).
Proof.
  intros <-. repeat split; try (destruct f; reflexivity).
  intros f' Hf. destruct f, f'; try reflexivity; congruence.
Qed.

Lemma only_list_append_linkage x : preserves (only_list F) (append_linkage F x).
Proof.
  unfold append_linkage.
  apply preserves_bind;
    [apply only_list_trans|apply preserves_last_entry, only_list_refl|].
  intros _. destruct F as [f|] eqn:EF; rewrite <- EF.
  - apply only_list_modify_last. intros e. apply linkage_append_kept.
    congruence.
  - apply preserves_raise. intros s. apply only_list_refl.
Qed.

Local Ltac only_step :=
  first
    [ apply preserves_ret, only_list_refl
    | apply preserves_raise, only_list_refl
    | apply preserves_last_entry, only_list_refl
    | apply only_list_append_linkage
    | apply preserves_bind; [apply only_list_trans| |intros ?]
    | apply preserves_if ].

Lemma only_list_linkage_child v ic :
  preserves (only_list F) (linkage_child wxr F v ic).
Proof.
  destruct v as [linkage_data pending_tag], ic as [index child_node].
  unfold linkage_child.
  destruct (Nat.eqb index 0 || negb (word_set linkage_data));
    destruct child_node as [t|n|l]; repeat only_step.
Qed.

Lemma only_list_linkage_node v n :
  preserves (only_list F) (linkage_node wxr F v n).
Proof.
  destruct v as [sense_text sense_index]. unfold linkage_node.
  destruct (is_template n && str_eqb (template_name n) [LPAREN]).
  { cbv zeta.
    match goal with
    | |- context [default (GStr (lit "0")) ?x] =>
        destruct (default (GStr (lit "0")) x)
    end; repeat only_step.
    destruct (py_int _); repeat only_step. }
  destruct (bool_decide (kind n = LIST_ITEM) && str_eqb (sarg n) [SEMICOLON]).
  { destruct (index_search _) as [[[? ?] ?]|]; repeat only_step.
    destruct (py_int _); repeat only_step. }
  apply preserves_bind; [apply only_list_trans| |intros r].
  - apply preserves_for_fold; [apply only_list_refl|apply only_list_trans|].
    intros; apply only_list_linkage_child.
  - repeat only_step.
Qed.

End OnlyList.

Lemma only_list_derives_autres_item wxr n :
  preserves (only_list (Some Derived)) (derives_autres_item wxr n).
Proof.
  unfold derives_autres_item.
  apply preserves_bind;
    [apply only_list_trans| |intros; apply preserves_ret, only_list_refl].
  apply preserves_for_fold; [apply only_list_refl|apply only_list_trans|].
  intros [lang_code lang_name] node. unfold derives_autres_node.
  repeat first
    [ apply preserves_ret, only_list_refl
    | apply preserves_if
    | apply only_list_modify_last; intros e; apply linkage_append_kept;
      reflexivity
    | apply preserves_bind; [apply only_list_trans| |intros ?] ].
Qed.

(** X5.  [extract_linkage] writes to one list only: [derived] in a
    section [dérivés autres langues], the list that [LINKAGE_SUBTITLES]
    names otherwise.  Whether it returns or raises, the other linkage
    lists, the sounds, the tags and the forms of the last entry, its
    language and part of speech, every list of forms and the entries
    before the last are as they were. *)
Theorem extract_linkage_one_list
    (wxr : WiktextractContext) (level_node : WikiNode) (section_type : pystr)
    (s : State) (pre : list WordEntry) (cur : WordEntry) :
  page_data s = pre ++ [cur] ->
  let s' := snd (extract_linkage wxr level_node section_type s) in
  heap s' = heap s
  /\ exists cur',
       page_data s' = pre ++ [cur']
       /\ lang_code cur' = lang_code cur
       /\ pos cur' = pos cur
       /\ forms cur' = forms cur
       /\ sounds cur' = sounds cur
       /\ tags cur' = tags cur
       /\ forall f,
            Some f <> target_list wxr section_type ->
            linkage_of f cur' = linkage_of f cur.
Proof.
  intros E s'.
  assert (H : preserves (only_list (target_list wxr section_type))
                (extract_linkage wxr level_node section_type)).
  { unfold extract_linkage, target_list, process_derives_autres_list,
      process_linkage_list.
    destruct (str_eqb section_type derives_autres_langues).
    - apply preserves_for_each; [apply only_list_refl|apply only_list_trans|].
      intros; apply only_list_derives_autres_item.
    - apply preserves_bind;
        [apply only_list_trans|
        |intros; apply preserves_ret, only_list_refl].
      apply preserves_for_fold; [apply only_list_refl|apply only_list_trans|].
      intros; apply only_list_linkage_node. }
  destruct (H s) as (Hh & _ & Hp). split; [exact Hh|].
  destruct (Hp pre cur E) as (c & Ec & A & B & C & D & G & K).
  exists c. repeat split; assumption.
Qed.

(** X5 on a section of synonyms with one word: [derived] and [related]
    stay empty. *)
Lemma extract_linkage_one_list_witness :
  exists cur',
    page_data (snd (extract_linkage sample_wxr one_word_section
                      (lit "synonymes") one_entry)) = [cur']
    /\ derived cur' = [] /\ related cur' = [].
Proof.
  destruct (extract_linkage_one_list sample_wxr one_word_section
              (lit "synonymes") one_entry [] (fr_verb 0%nat) eq_refl)
    as (_ & c & Ec & _ & _ & _ & _ & _ & K).
  exists c. split; [exact Ec|]. split.
  - apply (K Derived). discriminate.
  - apply (K Related). discriminate.
Defined.

(** ** Derived terms in other languages *)





(** ** What the form line leaves of the last entry *)

Lemma keeps_linkage_refl s : keeps_linkage s s.
Proof. intros pre cur E. exists cur. repeat split; auto. Qed.

Lemma keeps_linkage_trans s1 s2 s3 :
  keeps_linkage s1 s2 -> keeps_linkage s2 s3 -> keeps_linkage s1 s3.
Proof.
  intros H12 H23 pre cur E.
  destruct (H12 pre cur E) as (c2 & E2 & A2 & B2 & K2).
  destruct (H23 pre c2 E2) as (c3 & E3 & A3 & B3 & K3).
  exists c3. split; [exact E3|]. split; [congruence|]. split; [congruence|].
  intros f. rewrite K3. apply K2.
Qed.

Lemma keeps_linkage_modify_last g :
  (forall e, lang_code (g e) = lang_code e /\ pos (g e) = pos e
             /\ forall f, linkage_of f (g e) = linkage_of f e) ->
  preserves keeps_linkage (modify_last g).
Proof.
  intros Hg s. unfold modify_last, bind, last_entry.
  destruct (last (page_data s)) as [e|]; cbn [snd];
    [|apply keeps_linkage_refl].
  intros pre cur E. cbn [page_data]. rewrite E, map_last_snoc.
  exists (g cur). split; [reflexivity|apply Hg].
Qed.

Lemma keeps_linkage_same_page {A} (m : M A) :
  (forall s, page_data (snd (m s)) = page_data s) ->
  preserves keeps_linkage m.
Proof.
  intros H s pre cur E. exists cur. rewrite H. repeat split; auto.
Qed.

Section KeepsLinkage.
Context (wxr : WiktextractContext).

Local Ltac keep_plain :=
  apply keeps_linkage_modify_last; intros e;
  split; [reflexivity|]; split; [reflexivity|];
  intros f; destruct f; reflexivity.

Local Ltac keep_step :=
  first
    [ apply preserves_ret, keeps_linkage_refl
    | apply preserves_raise, keeps_linkage_refl
    | apply preserves_last_entry, keeps_linkage_refl
    | keep_plain
    | apply keeps_linkage_same_page; intros s;
      unfold extend_forms, bind, last_entry;
      destruct (last (page_data s)); reflexivity
    | apply preserves_bind; [apply keeps_linkage_trans| |intros ?]
    | apply preserves_if
    | apply preserves_for_fold;
      [apply keeps_linkage_refl|apply keeps_linkage_trans|intros ? ?]
    | apply preserves_for_each;
      [apply keeps_linkage_refl|apply keeps_linkage_trans|intros ?] ].

Lemma keeps_linkage_call_extract title :
  preserves keeps_linkage (call_extract_conjugation wxr title).
Proof.
  apply keeps_linkage_same_page. intros s.
  unfold call_extract_conjugation, last_forms, extend_forms, bind, last_entry.
  destruct (last (page_data s)) as [e|] eqn:He; [|reflexivity].
  cbn [page_data]. repeat (rewrite He; cbn [page_data]). reflexivity.
Qed.

Lemma keeps_linkage_assign_forms copy l :
  preserves keeps_linkage (assign_forms copy l).
Proof.
  unfold assign_forms. destruct copy; [|keep_plain].
  apply keeps_linkage_same_page. intros s. unfold bind, last_entry.
  destruct (last (page_data s)); reflexivity.
Qed.

Lemma keeps_linkage_conj_link link :
  preserves keeps_linkage (conj_link wxr link).
Proof.
  unfold conj_link.
  destruct (largs link) as [|[|[t|n|l] r0] r1];
    try (apply preserves_ret, keeps_linkage_refl);
    try (apply preserves_raise, keeps_linkage_refl).
  destruct (negb (startswith t (lit "Conjugaison:"))); [keep_step|].
  cbv zeta. destruct (str_in (split1_last SLASH t) group_names); [keep_step|].
  intros s. destruct (same_conjugation t s) as [l|].
  - apply keeps_linkage_assign_forms.
  - apply keeps_linkage_call_extract.
Qed.

Lemma keeps_linkage_ja_mot_loop existing spans :
  preserves keeps_linkage (ja_mot_loop wxr existing spans).
Proof.
  induction spans as [|[index node] rest IH]; cbn [ja_mot_loop].
  - keep_step.
  - destruct (Nat.eqb index 1); [|exact IH].
    cbv zeta. unfold append_form. repeat keep_step.
Qed.

Lemma keeps_linkage_form_line_node pre c :
  preserves keeps_linkage (form_line_node wxr pre c).
Proof.
  unfold form_line_node. destruct c as [t|node|l]; [keep_step| |keep_step].
  unfold process_equiv_pour_template, equiv_pour_child,
    process_zh_mot_template, zh_mot_child, process_ja_mot_template,
    last_forms, process_conj_template, form_line_tag,
    append_last_sound_tag, append_form, append_sound, append_tag.
  repeat keep_step.
  - apply keeps_linkage_ja_mot_loop.
  - apply keeps_linkage_conj_link.
  - destruct (last (sounds _)); keep_step.
Qed.

(** X8.  [extract_form_line] never writes a linkage: whether it returns
    or raises, the language, the part of speech and the three linkage
    lists of the last entry are as they were. *)
Theorem form_line_keeps_linkage nodes s pre cur :
  page_data s = pre ++ [cur] ->
  exists cur',
    page_data (snd (extract_form_line wxr nodes s)) = pre ++ [cur']
    /\ lang_code cur' = lang_code cur
    /\ pos cur' = pos cur
    /\ derived cur' = derived cur
    /\ related cur' = related cur
    /\ synonyms cur' = synonyms cur.
Proof.
  intros E.
  assert (H : preserves keeps_linkage (extract_form_line wxr nodes)).
  { unfold extract_form_line.
    apply preserves_bind; [apply keeps_linkage_trans| |intros; keep_step].
    apply preserves_for_fold;
      [apply keeps_linkage_refl|apply keeps_linkage_trans|].
    intros; apply keeps_linkage_form_line_node. }
  destruct (H s pre cur E) as (c & Ec & A & B & K).
  exists c. split; [exact Ec|]. split; [exact A|]. split; [exact B|].
  split; [apply (K Derived)|]. split; [apply (K Related)|apply (K Synonyms)].
Qed.

End KeepsLinkage.

(** X8 on a form line with a pronunciation and a conjugation template. *)
Lemma form_line_keeps_linkage_witness :
  exists cur',
    page_data (snd (extract_form_line sample_wxr
                      [GNode pron_template; GNode conj_template] one_entry))
    = [cur']
    /\ synonyms cur' = [].
Proof.
  destruct (form_line_keeps_linkage sample_wxr
              [GNode pron_template; GNode conj_template] one_entry []
              (fr_verb 0%nat) eq_refl) as (c & Ec & _ & _ & _ & _ & H).
  exists c. split; [exact Ec|exact H].
Defined.

(** ** The template before, and the nodes that are no templates *)

Lemma form_line_node_result wxr pre c s r s' :
  form_line_node wxr pre c s = (Ok r, s') ->
  r = match c with
      | GNode n => if is_template n then template_name n else pre
      | _ => pre
      end.
Proof.
  unfold form_line_node. destruct c as [t|n|l]; try (intros [= <- _]; reflexivity).
  destruct (is_template n).
  - unfold bind, ret.
    match goal with
    | |- context [let (_, _) := ?m s in _] => destruct (m s) as [[[]|e1] s1]
    end; [|discriminate].
    intros [= <- _]. reflexivity.
  - destruct (bool_decide (kind n = ITALIC)); [|intros [= <- _]; reflexivity].
    unfold bind, ret. cbv zeta.
    match goal with
    | |- context [let (_, _) := ?m s in _] => destruct (m s) as [[[]|e1] s1]
    end; [|discriminate].
    intros [= <- _]. reflexivity.
Qed.

(** X9.  The template name that the form line compares with
    [PRON_TEMPLATES] is the name of the last template node before, however
    many strings and other nodes lie between: a run over [nodes] that
    returns yields the name of the last template among them, or the name it
    started with when there is none. *)
Theorem previous_template_name
    (wxr : WiktextractContext) (nodes : list GeneralNode) (pre r : pystr)
    (s s' : State) :
  for_fold (form_line_node wxr) nodes pre s = (Ok r, s') ->
  r = default pre (last (template_names nodes)).
Proof.
  revert pre s. induction nodes as [|c nodes IH]; intros pre s H.
  - injection H as <- _. reflexivity.
  - cbn [for_fold] in H. unfold bind at 1 in H.
    destruct (form_line_node wxr pre c s) as [[r1|e1] s1] eqn:E1;
      [|discriminate].
    apply form_line_node_result in E1. apply IH in H. rewrite H.
    unfold template_names. cbn [omap list_omap].
    fold (template_names nodes).
    destruct c as [t|n|l]; try (subst r1; reflexivity).
    destruct (is_template n); [|subst r1; reflexivity].
    subst r1. destruct (template_names nodes) as [|y ys] eqn:En; [reflexivity|].
    change (last (template_name n :: y :: ys)) with (last (y :: ys)).
    destruct (last_nonempty (y :: ys)) as [z ->]; [discriminate|reflexivity].
Qed.

(** X9 on a pronunciation template followed by italic text. *)
Lemma previous_template_name_witness :
  fst (for_fold (form_line_node sample_wxr)
         (GNode pron_template :: italic_line) [] one_entry)
  = Ok (lit "pron").
Proof.
  destruct (for_fold (form_line_node sample_wxr)
              (GNode pron_template :: italic_line) [] one_entry)
    as [[r|e] s'] eqn:E.
  - apply previous_template_name in E. rewrite E. reflexivity.
  - vm_compute in E. discriminate.
Defined.

Lemma with_more_tags_nil s : with_more_tags [] s = s.
Proof.
  destruct s as [pd h cs]. unfold with_more_tags. cbn [page_data heap
    conjugation_calls]. f_equal.
  destruct pd as [|x pd]; [reflexivity|].
  destruct (last_nonempty (x :: pd)) as [e He]; [discriminate|].
  apply (map_last_id_on _ _ e He). rewrite app_nil_r. destruct e; reflexivity.
Qed.

Lemma with_more_tags_app ts1 ts2 s :
  with_more_tags ts2 (with_more_tags ts1 s) = with_more_tags (ts1 ++ ts2) s.
Proof.
  unfold with_more_tags. cbn [page_data heap conjugation_calls]. f_equal.
  rewrite map_last_map_last.
  destruct (page_data s) as [|x pd]; [reflexivity|].
  destruct (last_nonempty (x :: pd)) as [e He]; [discriminate|].
  apply (map_last_ext_on _ _ _ e He).
  cbn [with_tags tags]. rewrite app_assoc. reflexivity.
Qed.

Lemma non_template_run
    (wxr : WiktextractContext) (nodes : list GeneralNode) (pre : pystr)
    (s : State) :
  page_data s <> [] ->
  Forall (fun c => not_template c = true) nodes ->
  for_fold (form_line_node wxr) nodes pre s
  = (Ok pre, with_more_tags (italic_tags wxr nodes) s).
Proof.
  intros Hs Hn. revert s Hs.
  induction Hn as [|c nodes Hc _ IH]; intros s Hs.
  - cbn [for_fold italic_tags omap list_omap]. rewrite with_more_tags_nil.
    reflexivity.
  - cbn [for_fold]. unfold italic_tags. cbn [omap list_omap].
    fold (italic_tags wxr nodes).
    destruct c as [t|n|l].
    + unfold bind at 1. cbn [form_line_node]. unfold ret at 1. apply IH, Hs.
    + cbn [not_template] in Hc. apply negb_true_iff in Hc.
      unfold form_line_node at 1. rewrite Hc.
      destruct (bool_decide (kind n = ITALIC)).
      * cbv zeta.
        destruct (str_eqb (clean_node wxr (Some (GNode n))) (lit "ou")).
        -- cbn [negb]. unfold bind at 1. unfold bind at 1. unfold ret at 1.
           unfold ret at 1. apply IH, Hs.
        -- cbn [negb]. destruct (last_nonempty _ Hs) as [e He].
           unfold bind at 1. unfold bind at 1. unfold append_tag.
           rewrite (modify_last_ok _ _ e He). unfold ret at 1.
           rewrite IH by (cbn [page_data]; apply map_last_nonempty, Hs).
           change (mkState (map_last (fun e0 => with_tags
                     (tags e0 ++ [clean_node wxr (Some (GNode n))]) e0)
                     (page_data s)) (heap s) (conjugation_calls s))
             with (with_more_tags [clean_node wxr (Some (GNode n))] s).
           rewrite with_more_tags_app. reflexivity.
      * unfold bind at 1. unfold ret at 1. apply IH, Hs.
    + unfold bind at 1. cbn [form_line_node]. unfold ret at 1. apply IH, Hs.
Qed.

(** X10.  Between the templates of a form line only the italic nodes
    count.  A run over nodes none of which is a template returns, keeps
    the template name it carries, and appends to the tags of the last entry
    the texts of the italic nodes, in order and but for the word [ou];
    sounds and forms are not touched. *)
Theorem italic_nodes_are_tags
    (wxr : WiktextractContext) (nodes : list GeneralNode) (pre : pystr)
    (s : State) :
  page_data s <> [] ->
  Forall (fun c => not_template c = true) nodes ->
  for_fold (form_line_node wxr) nodes pre s
  = (Ok pre, with_more_tags (italic_tags wxr nodes) s).
Proof.
  intros Hs Hn. revert s Hs.
  induction Hn as [|c nodes Hc _ IH]; intros s Hs.
  - cbn [for_fold italic_tags omap list_omap]. rewrite with_more_tags_nil.
    reflexivity.
  - cbn [for_fold]. unfold italic_tags. cbn [omap list_omap].
    fold (italic_tags wxr nodes).
    destruct c as [t|n|l].
    + unfold bind at 1. cbn [form_line_node]. unfold ret at 1. apply IH, Hs.
    + cbn [not_template] in Hc. apply negb_true_iff in Hc.
      unfold form_line_node at 1. rewrite Hc.
      destruct (bool_decide (kind n = ITALIC)).
      * cbv zeta.
        destruct (str_eqb (clean_node wxr (Some (GNode n))) (lit "ou")).
        -- cbn [negb]. unfold bind at 1. unfold bind at 1. unfold ret at 1.
           unfold ret at 1. apply IH, Hs.
        -- cbn [negb]. destruct (last_nonempty _ Hs) as [e He].
           unfold bind at 1. unfold bind at 1. unfold append_tag.
           rewrite (modify_last_ok _ _ e He). unfold ret at 1.
           rewrite IH by (cbn [page_data]; apply map_last_nonempty, Hs).
           change (mkState (map_last (fun e0 => with_tags
                     (tags e0 ++ [clean_node wxr (Some (GNode n))]) e0)
                     (page_data s)) (heap s) (conjugation_calls s))
             with (with_more_tags [clean_node wxr (Some (GNode n))] s).
           rewrite with_more_tags_app. reflexivity.
      * unfold bind at 1. unfold ret at 1. apply IH, Hs.
    + unfold bind at 1. cbn [form_line_node]. unfold ret at 1. apply IH, Hs.
Qed.

(** X10 on the italic nodes [masculin], [ou] and [singulier]. *)
Lemma italic_nodes_are_tags_witness :
  for_fold (form_line_node sample_wxr) italic_line (lit "pron") one_entry
  = (Ok (lit "pron"),
     with_more_tags [lit "masculin"; lit "singulier"] one_entry).
Proof.
  refine (italic_nodes_are_tags sample_wxr italic_line (lit "pron")
            one_entry _ _).
  - discriminate.
  - repeat constructor.
Defined.

(** ** The calls of extract_conjugation *)

Lemma calls_refl s : calls_conjugation_pages s s.
Proof. exists []. rewrite app_nil_r. split; [reflexivity|constructor]. Qed.

Lemma calls_trans s1 s2 s3 :
  calls_conjugation_pages s1 s2 -> calls_conjugation_pages s2 s3 ->
  calls_conjugation_pages s1 s3.
Proof.
  intros (n1 & E1 & F1) (n2 & E2 & F2). exists (n1 ++ n2).
  rewrite E2, E1, app_assoc. split; [reflexivity|].
  apply Forall_app; split; assumption.
Qed.

Lemma calls_same {A} (m : M A) :
  (forall s, conjugation_calls (snd (m s)) = conjugation_calls s) ->
  preserves calls_conjugation_pages m.
Proof.
  intros H s. exists []. rewrite H, app_nil_r. split; [reflexivity|constructor].
Qed.

Lemma calls_modify_last g : preserves calls_conjugation_pages (modify_last g).
Proof.
  apply calls_same. intros s. unfold modify_last, bind, last_entry.
  destruct (last (page_data s)); reflexivity.
Qed.

Lemma calls_extend_forms xs : preserves calls_conjugation_pages (extend_forms xs).
Proof.
  apply calls_same. intros s. unfold extend_forms, bind, last_entry.
  destruct (last (page_data s)); reflexivity.
Qed.

Lemma calls_assign_forms copy l :
  preserves calls_conjugation_pages (assign_forms copy l).
Proof.
  unfold assign_forms. destruct copy; [|apply calls_modify_last].
  apply calls_same. intros s. unfold bind, last_entry.
  destruct (last (page_data s)); reflexivity.
Qed.

Section Calls.
Context (wxr : WiktextractContext).

Local Ltac calls_step :=
  first
    [ apply preserves_ret, calls_refl
    | apply preserves_raise, calls_refl
    | apply preserves_last_entry, calls_refl
    | apply calls_modify_last
    | apply calls_extend_forms
    | apply preserves_bind; [apply calls_trans| |intros ?]
    | apply preserves_if
    | apply preserves_for_fold; [apply calls_refl|apply calls_trans|intros ? ?]
    | apply preserves_for_each; [apply calls_refl|apply calls_trans|intros ?] ].

Lemma calls_conj_link link :
  preserves calls_conjugation_pages (conj_link wxr link).
Proof.
  unfold conj_link.
  destruct (largs link) as [|[|[t|n|l] r0] r1];
    try (apply preserves_ret, calls_refl);
    try (apply preserves_raise, calls_refl).
  destruct (startswith t (lit "Conjugaison:")) eqn:Hs; cbn [negb];
    [|calls_step].
  cbv zeta.
  destruct (str_in (split1_last SLASH t) group_names) eqn:Hg; [calls_step|].
  intros s. destruct (same_conjugation t s) as [l|].
  - apply calls_assign_forms.
  - destruct (last (page_data s)) as [e|] eqn:He.
    + rewrite (call_extract_conjugation_ok _ _ _ e He). cbn [snd].
      exists [t]. split; [reflexivity|].
      constructor; [split; assumption|constructor].
    + unfold call_extract_conjugation, bind, last_entry. rewrite He.
      apply calls_refl.
Qed.

Lemma calls_ja_mot_loop existing spans :
  preserves calls_conjugation_pages (ja_mot_loop wxr existing spans).
Proof.
  induction spans as [|[index node] rest IH]; cbn [ja_mot_loop].
  - calls_step.
  - destruct (Nat.eqb index 1); [|exact IH].
    cbv zeta. unfold append_form. repeat calls_step.
Qed.

Lemma calls_form_line_node pre c :
  preserves calls_conjugation_pages (form_line_node wxr pre c).
Proof.
  unfold form_line_node. destruct c as [t|node|l]; [calls_step| |calls_step].
  unfold process_equiv_pour_template, equiv_pour_child,
    process_zh_mot_template, zh_mot_child, process_ja_mot_template,
    last_forms, process_conj_template, form_line_tag,
    append_last_sound_tag, append_form, append_sound, append_tag.
  repeat calls_step.
  - intros s. apply calls_refl.
  - apply calls_ja_mot_loop.
  - apply calls_conj_link.
  - destruct (last (sounds _)); calls_step.
Qed.

(** X11.  [extract_form_line] calls [extract_conjugation] for conjugation
    pages only: every title it is called for starts with [Conjugaison:] and
    names no verb group.  The calls made before are still on record, in
    their order. *)
Theorem conjugation_calls_are_pages nodes s :
  exists new,
    conjugation_calls (snd (extract_form_line wxr nodes s))
    = conjugation_calls s ++ new
    /\ Forall conjugation_title new.
Proof.
  assert (H : preserves calls_conjugation_pages (extract_form_line wxr nodes)).
  { unfold extract_form_line.
    apply preserves_bind; [apply calls_trans| |intros; calls_step].
    apply preserves_for_fold; [apply calls_refl|apply calls_trans|].
    intros; apply calls_form_line_node. }
  exact (H s).
Qed.

End Calls.

(** ** Templates without a handler *)

(** X12.  A template the form line has no handler for becomes a tag of
    the entry when the template before it is no pronunciation template or
    the entry has no sound yet: its text, without the parentheses around
    it, is appended to the tags of the last entry, and a text made of
    parentheses only adds nothing.  The sounds are not touched. *)
Theorem other_template_is_entry_tag
    (wxr : WiktextractContext) (pre : pystr) (t : WikiNode)
    (s : State) (e : WordEntry) :
  is_template t = true ->
  default_branch wxr (template_name t) = true ->
  last (page_data s) = Some e ->
  str_in pre (PRON_TEMPLATES wxr) = false \/ sounds e = [] ->
  let text := strip_parens (clean_node wxr (Some (GNode t))) in
  form_line_node wxr pre (GNode t) s
  = (Ok (template_name t),
     if nonempty text then with_more_tags [text] s else s).
Proof.
  intros Ht Hd He Hno text.
  rewrite form_line_node_default by assumption.
  unfold form_line_tag.
  unfold bind at 1. unfold bind at 1. unfold last_entry at 1. rewrite He.
  cbv zeta. fold text.
  assert (Hc : startswith (clean_node wxr (Some (GNode t))) [LPAREN]
               && (endswith (clean_node wxr (Some (GNode t))) [RPAREN]
                   && (str_in pre (PRON_TEMPLATES wxr)
                       && match sounds e with [] => false | _ => true end))
               = false).
  { destruct Hno as [-> | ->].
    - rewrite andb_false_l, !andb_false_r. reflexivity.
    - rewrite !andb_false_r. reflexivity. }
  rewrite Hc. destruct (nonempty text).
  - unfold append_tag. rewrite (modify_last_ok _ _ e He). reflexivity.
  - reflexivity.
Qed.

(** X12 on a gender template at the start of a form line: the tag is
    [masculin]. *)
Lemma other_template_is_entry_tag_witness :
  form_line_node gender_wxr [] (GNode (template_node (lit "m") [])) one_entry
  = (Ok (lit "m"), with_more_tags [lit "masculin"] one_entry).
Proof.
  refine (other_template_is_entry_tag gender_wxr []
            (template_node (lit "m") []) one_entry (fr_verb 0%nat)
            eq_refl eq_refl eq_refl _).
  left. reflexivity.
Defined.

(** ** Equivalent forms *)

Lemma nonempty_true (s : pystr) : nonempty s = true <-> s <> [].
Proof.
  destruct s; unfold nonempty; cbn; split; intros H;
    try reflexivity; try discriminate; congruence.
Qed.

Lemma equiv_pour_loop wxr xs ys e :
  incl ys xs ->
  forall form_tag s,
    equiv_pour_tag wxr xs form_tag ->
    last (page_data s) = Some e ->
    exists form_tag' s' new,
      for_fold (equiv_pour_child wxr) ys form_tag s = (Ok form_tag', s')
      /\ page_data s' = page_data s
      /\ conjugation_calls s' = conjugation_calls s
      /\ (forall l, l <> forms e -> heap s' !! l = heap s !! l)
      /\ deref (heap s') (forms e) = deref (heap s) (forms e) ++ new
      /\ Forall (equiv_pour_form wxr xs) new
      /\ (length new <= length ys)%nat.
Proof.
  induction ys as [|child ys IH]; intros Hincl form_tag s Htag He.
  - exists form_tag, s, []. rewrite app_nil_r.
    repeat split; try reflexivity; constructor.
  - assert (Hin : In child xs) by (apply Hincl; left; reflexivity).
    assert (Hincl' : incl ys xs).
    { intros x Hx. apply Hincl. right. exact Hx. }
    cbn [for_fold]. unfold equiv_pour_child at 1.
    destruct (bool_decide (kind child = ITALIC)) eqn:Hk.
    + apply bool_decide_eq_true in Hk.
      destruct (IH Hincl'
                  (strip_parens_space (clean_node wxr (Some (GNode child)))) s)
        as (ft & s' & new & Hrun & Hp & Hc & Hh & Hd & Hf & Hl);
        [right; exists child; auto|exact He|].
      exists ft, s', new. unfold bind at 1. unfold ret at 1.
      repeat split; try assumption. cbn [length]. lia.
    + destruct (bool_decide (kind child = HTML)
                && str_eqb (tag child) (lit "bdi")) eqn:Hb.
      * apply andb_true_iff in Hb as [Hkh Htag'].
        apply bool_decide_eq_true in Hkh. apply str_eqb_true in Htag'.
        cbv zeta. cbn [form].
        destruct (nonempty (clean_node wxr (Some (GNode child)))) eqn:Hne.
        -- set (x := mkForm (clean_node wxr (Some (GNode child)))
                        (if nonempty form_tag then [form_tag] else [])
                        equiv_pour_source).
           unfold bind at 1. unfold bind at 1.
           rewrite (append_form_last x s e He). unfold ret at 1.
           destruct (IH Hincl' form_tag
                       (mkState (page_data s)
                          (<[forms e := deref (heap s) (forms e) ++ [x]]>
                             (heap s))
                          (conjugation_calls s)))
             as (ft & s' & new & Hrun & Hp & Hc & Hh & Hd & Hf & Hl);
             [exact Htag|exact He|].
           cbn [page_data heap conjugation_calls] in *.
           exists ft, s', (x :: new). split; [exact Hrun|].
           split; [exact Hp|]. split; [exact Hc|]. split.
           { intros l Hne'. rewrite Hh by assumption.
             apply lookup_insert_ne. congruence. }
           split.
           { rewrite Hd, deref_insert, <- app_assoc. reflexivity. }
           split; [|cbn [length]; lia].
           constructor; [|exact Hf].
           split; [apply nonempty_true, Hne|]. split; [reflexivity|].
           split; [exists child; auto|].
           subst x. cbn [form_tags].
           destruct (nonempty form_tag) eqn:Hft; [|left; reflexivity].
           right. apply nonempty_true in Hft.
           destruct Htag as [->|(it & Hit & Hki & ->)]; [congruence|].
           exists it. auto.
        -- destruct (IH Hincl' form_tag s)
             as (ft & s' & new & Hrun & Hp & Hc & Hh & Hd & Hf & Hl);
             [exact Htag|exact He|].
           exists ft, s', new. unfold bind at 1. unfold bind at 1.
           unfold ret at 1. unfold ret at 1.
           repeat split; try assumption. cbn [length]. lia.
      * destruct (IH Hincl' form_tag s)
          as (ft & s' & new & Hrun & Hp & Hc & Hh & Hd & Hf & Hl);
          [exact Htag|exact He|].
        exists ft, s', new. unfold bind at 1. unfold ret at 1.
        repeat split; try assumption. cbn [length]. lia.
Qed.

(** X13.  [process_equiv_pour_template] only appends forms to the last
    entry.  It returns; [page_data] and every other list of forms are as
    before; the forms appended have the non-empty text of a [bdi] element
    of the expanded template, the source
    [form line template 'équiv-pour'], and no tag or the single non-empty
    tag made of an italic part stripped of parentheses and blanks; they are
    no more than the italic and HTML children of the expansion. *)
Theorem equiv_pour_appends_forms
    (wxr : WiktextractContext) (node : WikiNode) (s : State) (e : WordEntry) :
  last (page_data s) = Some e ->
  let xs := find_child [ITALIC; HTML] (parse_expand_all wxr node) in
  exists s' new,
    process_equiv_pour_template wxr node s = (Ok tt, s')
    /\ page_data s' = page_data s
    /\ (forall l, l <> forms e -> heap s' !! l = heap s !! l)
    /\ deref (heap s') (forms e) = deref (heap s) (forms e) ++ new
    /\ Forall (equiv_pour_form wxr xs) new
    /\ (length new <= length xs)%nat.
Proof.
  intros He xs.
  destruct (equiv_pour_loop wxr xs xs e (incl_refl xs) [] s
              (or_introl eq_refl) He)
    as (ft & s' & new & Hrun & Hp & _ & Hh & Hd & Hf & Hl).
  exists s', new. unfold process_equiv_pour_template. fold xs.
  rewrite (bind_ok _ _ _ _ _ Hrun). repeat split; assumption.
Qed.

(** X13 on the sample expansion, an italic part and one [bdi] element:
    one form, [actrice]. *)
Lemma equiv_pour_appends_forms_witness :
  exists s' new,
    process_equiv_pour_template sample_wxr equiv_pour_template one_entry
    = (Ok tt, s')
    /\ deref (heap s') 0%nat = [] ++ new
    /\ (length new <= 2)%nat.
Proof.
  destruct (equiv_pour_appends_forms sample_wxr equiv_pour_template
              one_entry (fr_verb 0%nat) eq_refl)
    as (s' & new & Hrun & _ & _ & Hd & _ & Hl).
  exists s', new. split; [exact Hrun|]. split; [exact Hd|exact Hl].
Defined.

(** ** Chinese pronunciations *)

Lemma with_more_sounds_nil s : with_more_sounds [] s = s.
Proof.
  destruct s as [pd h cs]. unfold with_more_sounds. cbn [page_data heap
    conjugation_calls]. f_equal.
  destruct pd as [|x pd]; [reflexivity|].
  destruct (last_nonempty (x :: pd)) as [e He]; [discriminate|].
  apply (map_last_id_on _ _ e He). rewrite app_nil_r. destruct e; reflexivity.
Qed.

Lemma with_more_sounds_app xs1 xs2 s :
  with_more_sounds xs2 (with_more_sounds xs1 s) = with_more_sounds (xs1 ++ xs2) s.
Proof.
  unfold with_more_sounds. cbn [page_data heap conjugation_calls]. f_equal.
  rewrite map_last_map_last.
  destruct (page_data s) as [|x pd]; [reflexivity|].
  destruct (last_nonempty (x :: pd)) as [e He]; [discriminate|].
  apply (map_last_ext_on _ _ _ e He).
  cbn [with_sounds sounds]. rewrite app_assoc. reflexivity.
Qed.

Lemma with_more_sounds_nonempty xs s :
  page_data s <> [] -> page_data (with_more_sounds xs s) <> [].
Proof. intros H. apply map_last_nonempty, H. Qed.

Lemma append_sound_more x s :
  page_data s <> [] -> append_sound x s = (Ok tt, with_more_sounds [x] s).
Proof.
  intros Hs. destruct (page_data s) as [|y pd] eqn:E; [congruence|].
  destruct (last_nonempty (y :: pd)) as [e He]; [discriminate|].
  rewrite <- E in He. unfold append_sound.
  rewrite (modify_last_ok _ s e He). reflexivity.
Qed.

(** X14.  [process_zh_mot_template] appends one sound for each template
    of the pre-expanded node that is named [lang] (in any case), [pron] or
    [prononciation], in the order of the templates and also when the text
    of the template is empty: a [lang] template gives a [zh_pron] with the
    tag [Pinyin], the other two an [ipa].  It returns, and nothing but the
    sounds of the last entry changes. *)
Theorem zh_mot_sounds
    (wxr : WiktextractContext) (node : WikiNode) (s : State) :
  page_data s <> [] ->
  process_zh_mot_template wxr node s
  = (Ok tt,
     with_more_sounds
       (omap (zh_mot_sound wxr)
             (find_child [TEMPLATE] (parse_pre_expand wxr node))) s).
Proof.
  unfold process_zh_mot_template.
  generalize (find_child [TEMPLATE] (parse_pre_expand wxr node)) as ts.
  intros ts. revert s.
  induction ts as [|t ts IH]; intros s Hs.
  - cbn [for_each omap list_omap]. rewrite with_more_sounds_nil. reflexivity.
  - cbn [for_each omap list_omap]. unfold zh_mot_child at 1, zh_mot_sound at 1.
    destruct (str_eqb (lower wxr (template_name t)) (lit "lang")).
    + rewrite (bind_ok _ _ _ _ _ (append_sound_more _ s Hs)).
      rewrite IH by (apply with_more_sounds_nonempty, Hs).
      rewrite with_more_sounds_app. reflexivity.
    + destruct (str_in (template_name t) [lit "pron"; lit "prononciation"]).
      * rewrite (bind_ok _ _ _ _ _ (append_sound_more _ s Hs)).
        rewrite IH by (apply with_more_sounds_nonempty, Hs).
        rewrite with_more_sounds_app. reflexivity.
      * unfold bind at 1. unfold ret at 1. apply IH, Hs.
Qed.

(** X14 on a [zh-mot] that pre-expands to a [lang], another and a [pron]
    template: two sounds, the second with an empty [ipa]. *)
Lemma zh_mot_sounds_witness :
  process_zh_mot_template zh_wxr zh_mot_template one_entry
  = (Ok tt,
     with_more_sounds
       [mkSound [] (lit "ma") [lit "Pinyin"]; mkSound [] [] []] one_entry).
Proof.
  refine (zh_mot_sounds zh_wxr zh_mot_template one_entry _).
  discriminate.
Defined.

(** ** What a form line may touch *)

(** X15 on the form line of the second of two
    Japanese verbs, a conjugation template and a [ja-mot]: the first entry
    stays, and so does every list of forms but those of the two
    entries. *)
Lemma extract_form_line_frame_witness :
  let s' := snd (extract_form_line sample_wxr
                   [GNode ja_verbe_template; GNode ja_mot_template]
                   two_ja_entries) in
  (exists cur', page_data s' = [ja_verb 0%nat] ++ [cur'])
  /\ forall l,
       l <> 1%nat ->
       (forall p, last [ja_verb 0%nat] = Some p -> l <> forms p) ->
       heap s' !! l = heap two_ja_entries !! l.
Proof.
  exact (extract_form_line_frame sample_wxr
           [GNode ja_verbe_template; GNode ja_mot_template]
           two_ja_entries [ja_verb 0%nat] (ja_verb 1%nat) eq_refl).
Defined.

(** ** Templates met again by the walk *)

Lemma childless_template_adds_nothing wxr lt v n s :
  is_template n = true ->
  str_eqb (template_name n) [LPAREN] = false ->
  children n = [] ->
  linkage_node wxr lt v n s = (Ok v, s).
Proof.
  intros Ht Hn Hc.
  assert (Hitem : linkage_item n = true).
  { unfold linkage_item. rewrite Ht, Hn. cbn [andb negb].
    unfold is_template in Ht. apply bool_decide_eq_true in Ht.
    rewrite Ht. reflexivity. }
  rewrite (linkage_node_of_item wxr lt v n Hitem).
  unfold invert_find_child. rewrite Hc.
  cbn [List.filter enumerate imap for_fold]. unfold bind at 1. unfold ret at 1.
  cbn [fst]. rewrite start_linkage_wordless.
  destruct v. reflexivity.
Qed.

(** X16.  The linkage walk meets every template of a list item a second
    time, as a node of its own, and reads nothing from it there: with
    template nodes that have no children, [process_linkage_list] does what
    its loop does on the list items and the table-start templates alone. *)
Theorem templates_are_read_once
    (wxr : WiktextractContext) (level_node : WikiNode)
    (lt : option LinkageField) (s : State) :
  let items := find_child_recursively [LIST_ITEM; TEMPLATE] level_node in
  Forall childless_template items ->
  process_linkage_list wxr level_node lt s
  = (for_fold (linkage_node wxr lt) (List.filter walk_counts items)
       ([], 0%Z) ;; ret tt) s.
Proof.
  intros items H. unfold process_linkage_list. fold items.
  enough (E : forall v s,
             for_fold (linkage_node wxr lt) items v s
             = for_fold (linkage_node wxr lt)
                 (List.filter walk_counts items) v s)
    by (unfold bind; rewrite E; reflexivity).
  clear s. induction H as [|n items Hn _ IH]; intros v s; [reflexivity|].
  cbn [List.filter]. unfold walk_counts at 1.
  destruct (is_template n) eqn:Ht; cbn [negb orb].
  - destruct (str_eqb (template_name n) [LPAREN]) eqn:Hp.
    + cbn [for_fold]. unfold bind.
      destruct (linkage_node wxr lt v n s) as [[v'|e] s']; [|reflexivity].
      apply IH.
    + cbn [for_fold].
      rewrite (bind_ok _ _ _ _ _
                 (childless_template_adds_nothing wxr lt v n s Ht Hp
                    (Hn Ht))).
      apply IH.
  - cbn [for_fold]. unfold bind.
    destruct (linkage_node wxr lt v n s) as [[v'|e] s']; [|reflexivity].
    apply IH.
Qed.

(** X16 on the section with the item [* {{lien|mot}}]: the walk is the
    item and the template, the loop runs on the item. *)
Lemma templates_are_read_once_witness :
  process_linkage_list sample_wxr lien_section (Some Synonyms) one_entry
  = (for_fold (linkage_node sample_wxr (Some Synonyms))
       [list_item (lit "*") [GNode lien_template]] ([], 0%Z) ;; ret tt)
      one_entry.
Proof.
  refine (templates_are_read_once sample_wxr lien_section (Some Synonyms)
            one_entry _).
  change (Forall childless_template
            [list_item (lit "*") [GNode lien_template]; lien_template]).
  constructor; [intros H; discriminate H|].
  constructor; [intros _; reflexivity|constructor].
Defined.

(** ** The sense of the records of a list item *)













(** ** A pronunciation and its location *)

(** C8, as the code has it.  After any nodes [before] of a form line that
    were processed without error, leaving [s1]:
    - a template [t1] whose name is in [PRON_TEMPLATES] appends one sound
      with the extracted text to the last entry when that text is not
      empty, and changes nothing when it is empty;
    - the nodes [mids] after it that are no templates leave the sounds
      alone: the italic ones among them become tags of the entry;
    - when the next template [t2], right after [t1] or after such nodes,
      is one that the form line has no handler for, its text starts with an
      opening and ends with a closing parenthesis, and the last entry has a
      sound, that text without its outer parentheses becomes a tag of the
      last sound; the entry gets no tag from it. *)
Theorem pron_sound_and_location
    (wxr : WiktextractContext) (before mids : list GeneralNode)
    (t1 t2 : WikiNode) (pre : pystr) (s s1 : State) (e1 : WordEntry) :
  is_template t1 = true ->
  str_in (template_name t1) (PRON_TEMPLATES wxr) = true ->
  for_fold (form_line_node wxr) before [] s = (Ok pre, s1) ->
  last (page_data s1) = Some e1 ->
  Forall (fun c => not_template c = true) mids ->
  let ipa_text := process_pron_template wxr t1 in
  let s2 :=
    if nonempty ipa_text then with_new_sound (mkSound ipa_text [] []) s1
    else s1 in
  let s3 := with_more_tags (italic_tags wxr mids) s2 in
  for_fold (form_line_node wxr) (before ++ [GNode t1]) [] s
  = (Ok (template_name t1), s2)
  /\ for_fold (form_line_node wxr) (before ++ GNode t1 :: mids) [] s
     = (Ok (template_name t1), s3)
  /\ (is_template t2 = true ->
      default_branch wxr (template_name t2) = true ->
      let tag := clean_node wxr (Some (GNode t2)) in
      startswith tag [LPAREN] = true ->
      endswith tag [RPAREN] = true ->
      forall e3,
        last (page_data s3) = Some e3 ->
        sounds e3 <> [] ->
        for_fold (form_line_node wxr)
          (before ++ GNode t1 :: mids ++ [GNode t2]) [] s
        = (Ok (template_name t2), with_sound_tag (strip_parens tag) s3)
        /\ tags <$> last (page_data (with_sound_tag (strip_parens tag) s3))
           = Some (tags e1 ++ italic_tags wxr mids)).
Proof.
  intros Ht1 Hp1 Hbefore He1 Hmids ipa_text s2 s3.
  assert (Hstep1 : form_line_node wxr pre (GNode t1) s1
                   = (Ok (template_name t1), s2)).
  { rewrite form_line_node_pron by assumption. cbv zeta.
    fold ipa_text. subst s2. unfold bind.
    destruct (nonempty ipa_text).
    - unfold append_sound. rewrite (modify_last_ok _ _ e1 He1). reflexivity.
    - reflexivity. }
  assert (Hrun1 : for_fold (form_line_node wxr) (before ++ [GNode t1]) [] s
                  = (Ok (template_name t1), s2)).
  { rewrite for_fold_app. rewrite (bind_ok _ _ _ _ _ Hbefore).
    cbn [for_fold]. rewrite (bind_ok _ _ _ _ _ Hstep1). reflexivity. }
  assert (He2 : exists e2, last (page_data s2) = Some e2
                           /\ tags e2 = tags e1).
  { subst s2. destruct (nonempty ipa_text).
    - unfold with_new_sound. cbn [page_data]. rewrite last_map_last, He1.
      eexists. split; reflexivity.
    - exists e1. split; [exact He1|reflexivity]. }
  destruct He2 as (e2 & He2 & Htags2).
  assert (Hpd2 : page_data s2 <> []).
  { intros E. rewrite E in He2. discriminate. }
  assert (Hrun2 : for_fold (form_line_node wxr) (before ++ GNode t1 :: mids)
                    [] s
                  = (Ok (template_name t1), s3)).
  { change (before ++ GNode t1 :: mids) with (before ++ [GNode t1] ++ mids).
    rewrite app_assoc, for_fold_app. rewrite (bind_ok _ _ _ _ _ Hrun1).
    apply non_template_run; assumption. }
  split; [exact Hrun1|]. split; [exact Hrun2|].
  intros Ht2 Hd2 tag Hopen Hclose e3 He3 Hsounds.
  split.
  - replace (before ++ GNode t1 :: mids ++ [GNode t2])
      with ((before ++ GNode t1 :: mids) ++ [GNode t2])
      by (rewrite <- app_assoc; reflexivity).
    rewrite for_fold_app. rewrite (bind_ok _ _ _ _ _ Hrun2).
    cbn [for_fold]. rewrite form_line_node_default by assumption.
    unfold form_line_tag.
    unfold bind at 1. unfold bind at 1. unfold bind at 1.
    unfold last_entry at 1. rewrite He3.
    cbv zeta. fold tag. rewrite Hopen, Hclose, Hp1. cbn [andb].
    destruct (sounds e3) as [|x xs] eqn:Es; [congruence|].
    rewrite (append_last_sound_tag_ok _ _ e3 He3) by congruence.
    reflexivity.
  - unfold with_sound_tag. cbn [page_data]. rewrite last_map_last, He3.
    cbn [fmap option_fmap option_map with_sounds tags]. f_equal.
    subst s3. unfold with_more_tags in He3. cbn [page_data] in He3.
    rewrite last_map_last, He2 in He3. injection He3 as <-.
    cbn [with_tags tags]. rewrite Htags2. reflexivity.
Qed.

(** C8, a run of the theorem on the form line
    [{{pron|e.me|fr}} ''masculin'' {{CA}}]: one sound with the tag
    [Canada], and the entry tag [masculin]. *)
Lemma pron_sound_and_location_witness :
  for_fold (form_line_node sample_wxr) pron_italic_line [] one_entry
  = (Ok (lit "CA"),
     with_sound_tag (lit "Canada")
       (with_more_tags [lit "masculin"]
          (with_new_sound (mkSound (lit "e.me") [] []) one_entry))).
Proof.
  assert (Hmids : Forall (fun c => not_template c = true)
                    [GStr (lit " ");
                     GNode (text_node ITALIC [] (lit "masculin"));
                     GStr (lit " ")]).
  { repeat constructor. }
  destruct (pron_sound_and_location sample_wxr [] _ pron_template
              canada_template [] one_entry one_entry (fr_verb 0%nat)
              eq_refl eq_refl eq_refl eq_refl Hmids) as (_ & _ & H).
  destruct (H eq_refl eq_refl eq_refl eq_refl
              (with_tags [lit "masculin"]
                 (with_sounds [mkSound (lit "e.me") [] []] (fr_verb 0%nat)))
              eq_refl) as [Hrun _].
  - discriminate.
  - exact Hrun.
Defined.

(** C8 as the specification words it fails when the template after the
    pronunciation has a handler of its own: [conj] renders as
    [(voir la conjugaison)], the entry has a sound, and yet the sound gets
    no tag. *)
Lemma pron_location_counterexample :
  let tag := clean_node sample_wxr (Some (GNode conj_template)) in
  let s' :=
    snd (extract_form_line sample_wxr
           [GNode pron_template; GNode conj_template] one_entry) in
  str_in (template_name pron_template) (PRON_TEMPLATES sample_wxr) = true
  /\ startswith tag [LPAREN] = true
  /\ endswith tag [RPAREN] = true
  /\ sounds <$> last (page_data s') = Some [mkSound (lit "e.me") [] []]
  /\ sounds <$> last (page_data s')
     <> Some [mkSound (lit "e.me") [] [strip_parens tag]].
Proof.
  repeat split; try (vm_compute; reflexivity).
  vm_compute. discriminate.
Qed.
